(** * Fila de Veículos: the queue controller of [src/App.jsx]

  A shallow embedding of the React component [App] and of the module that
  builds the Supabase client, followed by the properties of the three use
  cases (load, submit, call next).

  - [Js]        : the JavaScript values the component handles.
  - [Supabase]  : the query builder calls the component makes and the
                  [{ data, error }] objects it gets back.
  - [Client]    : [supabaseClient.js], over an abstract [createClient].
  - [Effects]   : the statements of an async handler (state setters,
                  [await], [console.error], [new Date()]) as a program
                  type, and its execution against a list of responses.
  - [App]       : the component: its state, its handlers and what its
                  JSX shows and allows.
  - [Browser]   : the event loop around the mounted component.
  - [Store]     : what the remote tables answer to a query.
  - [View]      : the labels the JSX shows.
  - [Loop]      : invariants of the event loop and runs of events. *)

From stdpp Require Import gmap strings list sorting.

Set Warnings "-register-all".
Local Open Scope string_scope.
Local Open Scope list_scope.

(* ===================================================================== *)
(** ** JavaScript values *)
(* ===================================================================== *)

Module Js.

(** Rows and request bodies are JSON objects; [undefined] is what an
    absent property, an absent array element and [error?.message] on a
    null error evaluate to. *)
Inductive val : Type :=
| VUndefined
| VNull
| VNum (n : Z)
| VStr (s : string)
| VObj (o : gmap string val).

(** [v == null]: the values on which a property access throws. *)
Definition nullish (v : val) : bool :=
  match v with
  | VUndefined | VNull => true
  | _ => false
  end.

(** [v.k] for a data property [k]. [None] is the TypeError thrown on
    [undefined] and [null]; a property that is not there reads as
    [undefined]. *)
Definition get (v : val) (k : string) : option val :=
  match v with
  | VUndefined | VNull => None
  | VObj o => Some (default VUndefined (o !! k))
  | VNum _ | VStr _ => Some VUndefined
  end.

(** [a[i]] on an array. *)
Definition index (a : list val) (i : nat) : val := default VUndefined (a !! i).

Inductive exn : Type :=
| TypeError (what : string).

End Js.
Export Js.

(* ===================================================================== *)
(** ** The Supabase query builder *)
(* ===================================================================== *)

Module Supabase.

Inductive method : Type :=
| MNone
| MSelect
| MInsert (rows : list val)
| MUpdate (patch : val).

(** What a chain [supabase.from(..).….…] has accumulated when it is
    awaited. [columns] is the argument of [.select(..)], also when it
    follows an [.insert(..)] and asks for the inserted rows back. *)
Record query : Type := Query {
  table : string;
  meth : method;
  columns : option string;
  filters : list (string * val);
  ordering : option (string * bool)
}.

Definition from (tbl : string) : query :=
  Query tbl MNone None [] None.

Definition select (cols : string) (q : query) : query :=
  Query (table q)
        (match meth q with MNone => MSelect | m => m end)
        (Some cols) (filters q) (ordering q).

Definition insert (rows : list val) (q : query) : query :=
  Query (table q) (MInsert rows) (columns q) (filters q) (ordering q).

Definition update (patch : val) (q : query) : query :=
  Query (table q) (MUpdate patch) (columns q) (filters q) (ordering q).

Definition eq (col : string) (v : val) (q : query) : query :=
  Query (table q) (meth q) (columns q) (filters q ++ [(col, v)]) (ordering q).

Definition order (col : string) (ascending : bool) (q : query) : query :=
  Query (table q) (meth q) (columns q) (filters q) (Some (col, ascending)).

Record pg_error : Type := PgError { message : string }.

(** The object an awaited query resolves to. [data] is [null] or an
    array of rows, [error] is [null] or an error object. *)
Record response : Type := Response {
  data : option (list (gmap string val));
  error : option pg_error
}.

End Supabase.

(** [q |> f] is the method call [q.f(..)] of a builder chain. *)
Notation "q |> f" := (f q) (at level 45, left associativity, only parsing).

(* ===================================================================== *)
(** ** [supabaseClient.js] *)
(* ===================================================================== *)

Module Client.
Section SupabaseClient.

(** The client type and [createClient] belong to the imported package. *)
Variable client : Type.
Variable createClient : val → val → exn + client.

(** [import.meta.env.NAME]. *)
Definition env_get (env : gmap string string) (name : string) : val :=
  from_option VStr VUndefined (env !! name).

Definition supabaseUrl (env : gmap string string) : val :=
  env_get env "VITE_SUPABASE_URL".

Definition supabaseAnonKey (env : gmap string string) : val :=
  env_get env "VITE_SUPABASE_ANON_KEY".

Definition supabase (env : gmap string string) : exn + client :=
  createClient (supabaseUrl env) (supabaseAnonKey env).

End SupabaseClient.
End Client.

(* ===================================================================== *)
(** ** Handlers as programs *)
(* ===================================================================== *)

Module Effects.
Import Supabase.

(** The three [useState] cells of [App]. *)
Record state : Type := State {
  form : gmap string string;
  fila : list val;
  loading : bool
}.

(** A handler body in continuation style. The setters take an updater
    ([setFila((prev) => ..)]); a plain value is the constant updater.
    [Await q k] sends [q] and resumes with [k] when it settles. *)
Inductive prog : Type :=
| Return
| Throw (e : exn)
| SetForm (f : gmap string string → gmap string string) (k : prog)
| SetFila (f : list val → list val) (k : prog)
| SetLoading (b : bool) (k : prog)
| ConsoleError (label : string) (arg : val) (k : prog)
| NewDate (k : string → prog)
| Await (q : query) (k : response → prog).

(** [p; q]: statement sequencing. *)
Fixpoint seq (p q : prog) : prog :=
  match p with
  | Return => q
  | Throw e => Throw e
  | SetForm f k => SetForm f (seq k q)
  | SetFila f k => SetFila f (seq k q)
  | SetLoading b k => SetLoading b (seq k q)
  | ConsoleError l a k => ConsoleError l a (seq k q)
  | NewDate k => NewDate (λ t, seq (k t) q)
  | Await r k => Await r (λ x, seq (k x) q)
  end.

Definition setForm (f : gmap string string → gmap string string) : prog :=
  SetForm f Return.
Definition setFila (f : list val → list val) : prog := SetFila f Return.
Definition setLoading (b : bool) : prog := SetLoading b Return.
Definition console_error (label : string) (arg : val) : prog :=
  ConsoleError label arg Return.

(** [v.k] inside a handler: the access throws on a nullish [v]. *)
Definition member (v : val) (k : string) (cont : val → prog) : prog :=
  match get v k with
  | Some x => cont x
  | None => Throw (TypeError k)
  end.

(** What a run leaves behind: the component state, the queries sent (in
    order) and the lines written by [console.error]. *)
Record world : Type := World {
  st : state;
  net : list query;
  console : list (string * val)
}.

Definition with_form (f : gmap string string → gmap string string) (w : world) :=
  World (State (f (form (st w))) (fila (st w)) (loading (st w))) (net w) (console w).
Definition with_fila (f : list val → list val) (w : world) :=
  World (State (form (st w)) (f (fila (st w))) (loading (st w))) (net w) (console w).
Definition with_loading (b : bool) (w : world) :=
  World (State (form (st w)) (fila (st w)) b) (net w) (console w).
Definition send (q : query) (w : world) :=
  World (st w) (net w ++ [q]) (console w).
Definition log (label : string) (arg : val) (w : world) :=
  World (st w) (net w) (console w ++ [(label, arg)]).

Inductive outcome : Type :=
| Done (w : world)
| Thrown (e : exn) (w : world)
| Suspended (k : response → prog) (w : world).

(** Run [p] at clock reading [now]. Every [await] consumes the next
    response of [rs]; with none left the program stays suspended on the
    query it has just sent. *)
Fixpoint exec (now : string) (p : prog) (rs : list response) (w : world) : outcome :=
  match p with
  | Return => Done w
  | Throw e => Thrown e w
  | SetForm f k => exec now k rs (with_form f w)
  | SetFila f k => exec now k rs (with_fila f w)
  | SetLoading b k => exec now k rs (with_loading b w)
  | ConsoleError l a k => exec now k rs (log l a w)
  | NewDate k => exec now (k now) rs w
  | Await q k =>
      match rs with
      | [] => Suspended k (send q w)
      | r :: rs' => exec now (k r) rs' (send q w)
      end
  end.

End Effects.

Declare Scope prog_scope.
Delimit Scope prog_scope with prog.
Bind Scope prog_scope with Effects.prog.
Notation "p ;; q" := (Effects.seq p q)
  (at level 100, q at level 200, right associativity) : prog_scope.
Notation "'await' x ← q ; k" := (Effects.Await q (λ x, k))
  (at level 10, x name, q at level 99, k at level 200) : prog_scope.
Notation "'date' x ← 'now' ; k" := (Effects.NewDate (λ x, k))
  (at level 10, x name, k at level 200) : prog_scope.

(* ===================================================================== *)
(** ** The component [App] *)
(* ===================================================================== *)

Module App.
Import Supabase Effects.

Definition initialForm : gmap string string :=
  <["placa_cavalo" := ""]> $ <["placa_carreta" := ""]> $
  <["motorista" := ""]> $ <["origem" := ""]> $ <["destino" := ""]> $
  <["tipo" := ""]> $ <["prioridade" := ""]> $ <["observacoes" := ""]> ∅.

(** [useState(initialForm)], [useState([])], [useState(false)]. *)
Definition initialState : state := State initialForm [] false.

(** [{ ...form, status: 'Na fila' }] *)
Definition insert_body (form : gmap string string) : gmap string val :=
  <["status" := VStr "Na fila"]> (VStr <$> form).

(** [data || []] *)
Definition rows_or_empty (data : option (list (gmap string val))) : list val :=
  VObj <$> default [] data.

(** [data[0]] *)
Definition first_row (data : list (gmap string val)) : val :=
  index (VObj <$> data) 0.

(** [error?.message] *)
Definition optional_message (error : option pg_error) : val :=
  from_option (λ e, VStr (message e)) VUndefined error.

(** The effect of [useEffect(.., [])]. *)
Definition fetchQueue : prog :=
  (setLoading true ;;
   await r ← from "fila" |> select "*" |> eq "status" (VStr "Na fila")
                         |> order "chegada_at" true ;
   (match error r with
    | None => setFila (λ _, rows_or_empty (data r))
    | Some e => console_error "Erro ao buscar fila:" (VStr (message e))
    end ;;
    setLoading false))%prog.

Definition handleChange (field : string) (value : string) : prog :=
  setForm (λ prev, <[field := value]> prev).

(** [form] is the draft of the render the handler was created in.
    [e.preventDefault()] only stops the page navigation and is left out. *)
Definition handleSubmit (form : gmap string string) : prog :=
  (setLoading true ;;
   await r ← from "fila" |> insert [VObj (insert_body form)] |> select "*" ;
   (match error r, data r with
    | None, Some d =>
        setFila (λ prev, prev ++ [first_row d]) ;;
        setForm (λ _, initialForm)
    | _, _ => console_error "Erro ao inserir veículo:" (optional_message (error r))
    end ;;
    setLoading false))%prog.

(** [fila] is the queue of the render the handler was created in. *)
Definition handleCallNext (fila : list val) : prog :=
  if (length fila =? 0)%nat then Return else
  let next := index fila 0 in
  (setLoading true ;;
   date now ← now ;
   member next "id" (λ id,
   await ru ← from "fila"
              |> update (VObj (<["status" := VStr "Chamado"]> $
                               <["chamado_at" := VStr now]> ∅))
              |> eq "id" id ;
   member next "id" (λ id',
   await rh ← from "historico"
              |> insert [VObj (<["veiculo_id" := id']> $
                               <["acao" := VStr "Chamado"]> $
                               <["at" := VStr now]> $
                               <["payload" := next]> ∅)] ;
   (match error ru with
    | Some updateError =>
        console_error "Erro ao chamar veículo:" (VStr (message updateError))
    | None => Return
    end ;;
    match error rh with
    | Some historicoError =>
        console_error "Erro ao registrar histórico:" (VStr (message historicoError))
    | None => Return
    end ;;
    setFila (λ prev, drop 1 prev) ;;
    setLoading false))))%prog.

(** *** What the JSX shows *)

(** [value={form.placa_cavalo}] of the one input marked [required]. *)
Definition placa_cavalo_value (s : state) : string :=
  default "" (form s !! "placa_cavalo").

(** [disabled={loading}] on the submit button. *)
Definition submit_disabled (s : state) : bool := loading s.

(** [disabled={loading || fila.length === 0}] on the call-next button. *)
Definition callNext_disabled (s : state) : bool :=
  loading s || (length (fila s) =? 0)%nat.

(** What React accepts among the children of an element: a text, a
    number, or nothing for [null] and [undefined]; on a plain object it
    throws. *)
Definition child_ok (v : val) : bool :=
  match v with
  | VObj _ => false
  | _ => true
  end.

(** The columns of an item that its [<li>] puts among its children.
    [{item.prioridade && <>, prioridade: {item.prioridade}</>}] and the
    like for [observacoes] show the column when it is truthy, as every
    object is, and the column itself when it is falsy. *)
Definition displayed : list string :=
  ["placa_cavalo"; "placa_carreta"; "motorista"; "origem"; "destino";
   "prioridade"; "observacoes"].

(** [<li key={item.id}> .. </li>] for one item: reading a property of a
    nullish item throws, and so does an object among the children. *)
Definition item_renders (item : val) : bool :=
  match get item "id" with
  | None => false
  | Some _ => forallb (λ col, from_option child_ok false (get item col)) displayed
  end.

(** [fila.map((item) => <li key={item.id}> .. </li>)]: the render throws
    if the [<li>] of one item does. *)
Definition renders (s : state) : bool := forallb item_renders (fila s).

End App.

(* ===================================================================== *)
(** ** The event loop around the mounted component *)
(* ===================================================================== *)

Module Browser.
Import Supabase Effects App.

(** The mounted component: its state and traces, the continuations of
    the handlers suspended on an [await], and whether the tree is still
    mounted (React unmounts it when a render throws). *)
Record page : Type := Page {
  world_of : world;
  pending : list (response → prog);
  mounted : bool
}.

(** The eight inputs of the form, by the name each passes to
    [handleChange]. *)
Inductive field : Type :=
| placa_cavalo | placa_carreta | motorista | origem
| destino | tipo | prioridade | observacoes.

Definition field_name (f : field) : string :=
  match f with
  | placa_cavalo => "placa_cavalo"
  | placa_carreta => "placa_carreta"
  | motorista => "motorista"
  | origem => "origem"
  | destino => "destino"
  | tipo => "tipo"
  | prioridade => "prioridade"
  | observacoes => "observacoes"
  end.

Inductive event : Type :=
| Change (f : field) (value : string)  (* typing into an input *)
| Submit                               (* activating the submit button *)
| CallNext                             (* clicking the call-next button *)
| Settle (i : nat) (r : response).     (* the i-th pending call settles *)

(** End of a synchronous stretch of a handler: a continuation left on an
    [await] joins the pending ones, then React renders the new state. *)
Definition commit (waiting : list (response → prog)) (alive : bool)
    (o : outcome) : page :=
  match o with
  | Done w => Page w waiting (alive && renders (st w))
  | Thrown _ w => Page w waiting (alive && renders (st w))
  | Suspended k w => Page w (waiting ++ [k]) (alive && renders (st w))
  end.

Definition dispatch (now : string) (p : prog) (pg : page) : page :=
  commit (pending pg) (mounted pg) (exec now p [] (world_of pg)).

(** First render followed by the mount effect. *)
Definition boot (now : string) : page :=
  dispatch now fetchQueue (Page (World initialState [] []) [] true).

(** One turn of the event loop at clock reading [now]. A disabled button
    does not fire, and the form does not fire [onSubmit] while its
    required input is empty. *)
Definition step (now : string) (e : event) (pg : page) : page :=
  let s := st (world_of pg) in
  match e with
  | Change f value =>
      if mounted pg then dispatch now (handleChange (field_name f) value) pg
      else pg
  | Submit =>
      if mounted pg && negb (submit_disabled s)
         && negb (String.eqb (placa_cavalo_value s) "")
      then dispatch now (handleSubmit (form s)) pg
      else pg
  | CallNext =>
      if mounted pg && negb (callNext_disabled s)
      then dispatch now (handleCallNext (fila s)) pg
      else pg
  | Settle i r =>
      match pending pg !! i with
      | Some k => commit (delete i (pending pg)) (mounted pg)
                         (exec now (k r) [] (world_of pg))
      | None => pg
      end
  end.

Inductive reachable : page → Prop :=
| reachable_boot now : reachable (boot now)
| reachable_step now e pg : reachable pg → reachable (step now e pg).

(** The events that start one of the two user operations. *)
Definition starts_operation (e : event) : bool :=
  match e with
  | Submit | CallNext => true
  | _ => false
  end.

End Browser.

(* ===================================================================== *)
(** ** The remote tables *)
(* ===================================================================== *)

Module Store.
Import Supabase.

(** A column the row does not have reads as SQL NULL. *)
Definition cell (row : gmap string val) (col : string) : val :=
  default VNull (row !! col).

(** [col = v] of an [.eq(col, v)] filter; NULL equals nothing. *)
Definition val_eqb (a b : val) : bool :=
  match a, b with
  | VNum m, VNum n => (m =? n)%Z
  | VStr s, VStr t => String.eqb s t
  | _, _ => false
  end.

Definition satisfies (fs : list (string * val)) (row : gmap string val) : bool :=
  forallb (λ f, val_eqb (cell row f.1) f.2) fs.

Definition rank (v : val) : nat :=
  match v with
  | VNum _ => 0
  | VStr _ => 1
  | _ => 2
  end.

(** Ascending order of a column: numbers by value, texts (timestamps in
    ISO-8601 among them) by character, NULLs last. *)
Definition val_leb (a b : val) : bool :=
  match a, b with
  | VNum m, VNum n => (m <=? n)%Z
  | VStr s, VStr t => String.leb s t
  | _, _ => (rank a <=? rank b)%nat
  end.

Definition row_le (col : string) (a b : gmap string val) : Prop :=
  val_leb (cell a col) (cell b col) = true.

Global Instance row_le_dec col : RelDecision (row_le col).
Proof. intros a b. unfold row_le. apply _. Defined.

(** The rows a select query returns from table [tbl]. *)
Definition run_select (tbl : list (gmap string val)) (q : query)
    : list (gmap string val) :=
  let hits := filter (λ row, satisfies (filters q) row = true) tbl in
  match ordering q with
  | Some (col, true) => merge_sort (row_le col) hits
  | Some (col, false) => merge_sort (flip (row_le col)) hits
  | None => hits
  end.

(** The answer to a select that went through. *)
Definition answer (tbl : list (gmap string val)) (q : query) : response :=
  Response (Some (run_select tbl q)) None.

(** [row] is the stored form of the one object insert query [q] sent:
    it has every column of the body; the store adds its own ([id],
    [chegada_at]). *)
Definition stored (q : query) (row : gmap string val) : Prop :=
  match meth q with
  | MInsert [VObj body] => body ⊆ row
  | _ => False
  end.

End Store.

(* ===================================================================== *)
(** ** Vocabulary of the statements *)
(* ===================================================================== *)

Module Expect.
Import Supabase Effects App Browser.

(** The row update for the entry with identifier [id] at time [now],
    written out field by field. *)
Definition update_of (now : string) (id : val) : query :=
  {| table := "fila";
     meth := MUpdate (VObj (<["status" := VStr "Chamado"]> $
                            <["chamado_at" := VStr now]> ∅));
     columns := None;
     filters := [("id", id)];
     ordering := None |}.

(** The history insert for the local entry [a] at time [now]. *)
Definition history_of (now : string) (a : gmap string val) : query :=
  {| table := "historico";
     meth := MInsert [VObj (<["veiculo_id" := default VUndefined (a !! "id")]> $
                            <["acao" := VStr "Chamado"]> $
                            <["at" := VStr now]> $
                            <["payload" := VObj a]> ∅)];
     columns := None;
     filters := [];
     ordering := None |}.

(** The insert of a draft, asking for the inserted row back. *)
Definition insert_of (draft : gmap string string) : query :=
  {| table := "fila";
     meth := MInsert [VObj (<["status" := VStr "Na fila"]> (VStr <$> draft))];
     columns := Some "*";
     filters := [];
     ordering := None |}.

(** The query for the waiting rows, oldest arrival first. *)
Definition waiting_rows : query :=
  {| table := "fila";
     meth := MSelect;
     columns := Some "*";
     filters := [("status", VStr "Na fila")];
     ordering := Some ("chegada_at", true) |}.

(** The line [console.error] gets for a failed call, none for a
    successful one. *)
Definition logged (label : string) (e : option pg_error) : list (string * val) :=
  match e with
  | Some err => [(label, VStr (message err))]
  | None => []
  end.

Definition is_update (q : query) : Prop := ∃ patch, meth q = MUpdate patch.
Definition is_insert (q : query) : Prop := ∃ rows, meth q = MInsert rows.

(** A remote row that is waiting in the queue. *)
Definition na_fila (row : gmap string val) : Prop :=
  row !! "status" = Some (VStr "Na fila").

Global Instance na_fila_dec row : Decision (na_fila row).
Proof.
  unfold na_fila. destruct (row !! "status") as [[| |n|s|o]|] eqn:E;
    try (right; congruence).
  destruct (decide (s = "Na fila")) as [->|Hne]; [left; reflexivity|right; congruence].
Defined.

(** Every field of the draft is the empty string. *)
Definition all_empty (draft : gmap string string) : Prop :=
  ∀ k v, draft !! k = Some v → v = "".

(** What the handlers put in the queue: a row, or the [undefined] that
    [data[0]] is on an empty array. *)
Definition row_or_hole (v : val) : bool :=
  match v with
  | VObj _ | VUndefined => true
  | _ => false
  end.

(** [runs b b' p]: started with the busy flag at [b], [p] does not throw,
    awaits only while the flag is up, returns with the flag at [b'], and
    its queue updates put nothing but rows and holes in the queue. *)
Inductive runs : bool → bool → prog → Prop :=
| runs_Return b : runs b b Return
| runs_SetForm b b' f k : runs b b' k → runs b b' (SetForm f k)
| runs_SetFila b b' f k :
    (∀ queue, forallb row_or_hole queue = true → forallb row_or_hole (f queue) = true) →
    runs b b' k → runs b b' (SetFila f k)
| runs_SetLoading b c b' k : runs c b' k → runs b b' (SetLoading c k)
| runs_ConsoleError b b' l a k : runs b b' k → runs b b' (ConsoleError l a k)
| runs_NewDate b b' k : (∀ t, runs b b' (k t)) → runs b b' (NewDate k)
| runs_Await b' q k : (∀ r, runs true b' (k r)) → runs true b' (Await q k).

(** The invariant of the event loop: nothing pending and the flag down,
    or one handler pending, the flag up, and that handler bound to lower
    it; the queue holds rows and holes, and a mounted page has rendered
    it. *)
Definition page_ok (pg : page) : Prop :=
  match pending pg with
  | [] => loading (st (world_of pg)) = false
  | [k] => loading (st (world_of pg)) = true ∧ ∀ r, runs true false (k r)
  | _ => False
  end
  ∧ forallb row_or_hole (fila (st (world_of pg))) = true
  ∧ (mounted pg = true → renders (st (world_of pg)) = true).

End Expect.

(** Rows and responses the statements are tried on. *)
Module Sample.
Import Supabase Effects App Browser.

Definition A : gmap string val :=
  <["id" := VNum 1]> $ <["placa_cavalo" := VStr "ABC1D23"]> $
  <["status" := VStr "Na fila"]> $
  <["chegada_at" := VStr "2024-05-01T10:00:00+00:00"]> ∅.

Definition B : gmap string val :=
  <["id" := VNum 2]> $ <["placa_cavalo" := VStr "XYZ9K88"]> $
  <["status" := VStr "Na fila"]> $
  <["chegada_at" := VStr "2024-05-01T11:30:00+00:00"]> ∅.

(** A row that has already been called. *)
Definition C : gmap string val :=
  <["id" := VNum 3]> $ <["placa_cavalo" := VStr "QWE4R56"]> $
  <["status" := VStr "Chamado"]> $
  <["chegada_at" := VStr "2024-05-01T09:00:00+00:00"]> ∅.

Definition draft : gmap string string :=
  <["placa_cavalo" := "NEW0A00"]> initialForm.

(** The stored form of [draft]. *)
Definition D : gmap string val :=
  <["id" := VNum 4]> $ <["chegada_at" := VStr "2024-05-01T12:00:00+00:00"]> $
  insert_body draft.

Definition idle (queue : list val) : world :=
  World (State initialForm queue false) [] [].

Definition typing (queue : list val) : world :=
  World (State draft queue false) [] [].

Definition ok : response := Response None None.
Definition failed (msg : string) : response := Response None (Some (PgError msg)).

(** The page after the load has settled, the plate has been typed and
    the form submitted: the insert is in flight. *)
Definition submitting : page :=
  step "2024-05-01T13:00:02.000Z" Submit
    (step "2024-05-01T13:00:01.000Z" (Change placa_cavalo "NEW0A00")
       (step "2024-05-01T13:00:00.500Z"
          (Settle 0 (Store.answer [B; C; A] Expect.waiting_rows))
          (boot "2024-05-01T13:00:00.000Z"))).

(** The page before that submit: idle, the plate typed. *)
Definition ready : page :=
  step "2024-05-01T13:00:01.000Z" (Change placa_cavalo "NEW0A00")
    (step "2024-05-01T13:00:00.500Z"
       (Settle 0 (Store.answer [B; C; A] Expect.waiting_rows))
       (boot "2024-05-01T13:00:00.000Z")).

(** The same page once the insert has settled with the stored row. *)
Definition submitted : page :=
  step "2024-05-01T13:00:03.000Z" (Settle 0 (Response (Some [D]) None)) submitting.

(** Then call next is clicked: the row update is in flight. *)
Definition calling : page :=
  step "2024-05-01T13:00:04.000Z" CallNext submitted.

End Sample.

(* ===================================================================== *)
(** ** The rest of the component: what it displays, runs of events *)
(* ===================================================================== *)

Module View.
Import Effects.

(** [{loading ? 'Salvando...' : 'Adicionar Veículo'}] *)
Definition submit_label (s : state) : string :=
  if loading s then "Salvando..." else "Adicionar Veículo".

(** [{fila.length === 0 ? 'Fila vazia' : 'Chamar próximo'}] *)
Definition callNext_label (s : state) : string :=
  if (length (fila s) =? 0)%nat then "Fila vazia" else "Chamar próximo".

(** [{loading && <p>Carregando...</p>}]: the paragraph, or nothing. *)
Definition loading_line (s : state) : option string :=
  if loading s then Some "Carregando..." else None.

End View.

Module Loop.
Import Supabase Effects App Browser Expect.

(** [safe I Q G L p]: every state update of [p] keeps [I], every query it
    sends satisfies [Q] and every console line [L]; what follows an
    [await] of [q] has to behave only on the responses [G q] admits. *)
Inductive safe (I : state → Prop) (Q : query → Prop)
    (G : query → response → Prop) (L : string → val → Prop) : prog → Prop :=
| safe_Return : safe I Q G L Return
| safe_Throw e : safe I Q G L (Throw e)
| safe_SetForm f k :
    (∀ s, I s → I (State (f (form s)) (fila s) (loading s))) →
    safe I Q G L k → safe I Q G L (SetForm f k)
| safe_SetFila f k :
    (∀ s, I s → I (State (form s) (f (fila s)) (loading s))) →
    safe I Q G L k → safe I Q G L (SetFila f k)
| safe_SetLoading b k :
    (∀ s, I s → I (State (form s) (fila s) b)) →
    safe I Q G L k → safe I Q G L (SetLoading b k)
| safe_ConsoleError l a k :
    L l a → safe I Q G L k → safe I Q G L (ConsoleError l a k)
| safe_NewDate k : (∀ t, safe I Q G L (k t)) → safe I Q G L (NewDate k)
| safe_Await q k :
    Q q → (∀ r, G q r → safe I Q G L (k r)) → safe I Q G L (Await q k).

(** The response of a [Settle] answers the query sent last, and [G]
    admits it. *)
Definition answers (G : query → response → Prop) (pg : page) (e : event) : Prop :=
  match e with
  | Settle _ r => ∀ q, last (net (world_of pg)) = Some q → G q r
  | _ => True
  end.

(** The pages reached when every response is one [G] admits. *)
Inductive reachable_under (G : query → response → Prop) : page → Prop :=
| under_boot now : reachable_under G (boot now)
| under_step now e pg :
    reachable_under G pg → answers G pg e → reachable_under G (step now e pg).

(** The invariant [safe] handlers keep: [I] on the state, the load first
    and [Q] on every query after it, [L] on the console, and a pending
    continuation safe on the admitted answers to the last query. *)
Definition page_inv (I : state → Prop) (Q : query → Prop)
    (G : query → response → Prop) (L : string → val → Prop) (pg : page) : Prop :=
  I (st (world_of pg))
  ∧ (∃ qs, net (world_of pg) = waiting_rows :: qs ∧ Forall Q qs)
  ∧ Forall (λ line, L line.1 line.2) (console (world_of pg))
  ∧ match pending pg with
    | [] => True
    | [k] => ∃ q, last (net (world_of pg)) = Some q
                  ∧ ∀ r, G q r → safe I Q G L (k r)
    | _ => False
    end.

(** The three queries the handlers send after the load. *)
Definition shape (q : query) : Prop :=
  (∃ draft, q = insert_of draft ∧ dom draft = dom initialForm)
  ∨ (∃ t id, q = update_of t id)
  ∨ (∃ t a, q = history_of t a).

(** The four lines the handlers write. *)
Definition label_ok (l : string) (a : val) : Prop :=
  l = "Erro ao buscar fila:" ∨ l = "Erro ao inserir veículo:"
  ∨ l = "Erro ao chamar veículo:" ∨ l = "Erro ao registrar histórico:".

(** The draft has the eight fields and the queue holds rows and holes. *)
Definition tidy (s : state) : Prop :=
  dom (form s) = dom initialForm ∧ forallb row_or_hole (fila s) = true.




(** The call went through: no error, and an insert that asked for its
    rows got an array back. *)
Definition goes_through (q : query) (r : response) : Prop :=
  error r = None ∧ (is_insert q → columns q ≠ None → data r ≠ None).

Definition is_call_update (q : query) : bool :=
  String.eqb (table q) "fila" && match meth q with MUpdate _ => true | _ => false end.

Definition is_history_insert (q : query) : bool :=
  String.eqb (table q) "historico"
  && match meth q with MInsert _ => true | _ => false end.

Definition count_if (f : query → bool) (qs : list query) : nat :=
  length (filter (λ q, f q = true) qs).

(** [debt b p]: [b] tells whether a row update has been sent whose
    history insert has not; [p] sends the missing insert before anything
    else and returns owing nothing. *)
Inductive debt : bool → prog → Prop :=
| debt_Return : debt false Return
| debt_Throw e : debt false (Throw e)
| debt_SetForm b f k : debt b k → debt b (SetForm f k)
| debt_SetFila b f k : debt b k → debt b (SetFila f k)
| debt_SetLoading b c k : debt b k → debt b (SetLoading c k)
| debt_ConsoleError b l a k : debt b k → debt b (ConsoleError l a k)
| debt_NewDate b k : (∀ t, debt b (k t)) → debt b (NewDate k)
| debt_update q k :
    is_call_update q = true → (∀ r, debt true (k r)) → debt false (Await q k)
| debt_history q k :
    is_history_insert q = true → (∀ r, debt false (k r)) → debt true (Await q k)
| debt_other q k :
    is_call_update q = false → is_history_insert q = false →
    (∀ r, debt false (k r)) → debt false (Await q k).

Definition ledger (pg : page) : Prop :=
  match pending pg with
  | [] => count_if is_call_update (net (world_of pg))
          = count_if is_history_insert (net (world_of pg))
  | [k] => ∃ b, count_if is_call_update (net (world_of pg))
                = (count_if is_history_insert (net (world_of pg)) + Nat.b2n b)%nat
                ∧ ∀ r, debt b (k r)
  | _ => False
  end.

(** A click on call next followed by the settling of its two calls. *)
Definition call_turn (t : string) (ru rh : response) (pg : page) : page :=
  step t (Settle 0 rh) (step t (Settle 0 ru) (step t CallNext pg)).

(** One such turn after the other. *)
Fixpoint call_all (turns : list (string * response * response)) (pg : page) : page :=
  match turns with
  | [] => pg
  | (t, ru, rh) :: more => call_all more (call_turn t ru rh pg)
  end.

(** The queries of the turns, entry by entry. *)
Fixpoint calls_of (rows : list (gmap string val))
    (turns : list (string * response * response)) : list query :=
  match rows, turns with
  | a :: rows', (t, _, _) :: more =>
      update_of t (default VUndefined (a !! "id")) :: history_of t a
      :: calls_of rows' more
  | _, _ => []
  end.

(** The console lines of the turns. *)
Fixpoint lines_of (turns : list (string * response * response)) : list (string * val) :=
  match turns with
  | [] => []
  | (_, ru, rh) :: more =>
      logged "Erro ao chamar veículo:" (error ru)
      ++ logged "Erro ao registrar histórico:" (error rh)
      ++ lines_of more
  end.

Global Instance field_eq_dec : EqDecision field.
Proof. solve_decision. Defined.

(** The last value typed into field [f], if any. *)
Fixpoint last_typed (f : field) (keys : list (field * string)) : option string :=
  match keys with
  | [] => None
  | key :: more =>
      match last_typed f more with
      | Some value => Some value
      | None => if decide (key.1 = f) then Some key.2 else None
      end
  end.

(** Keystrokes, one [Change] event each. *)
Definition type_all (t : string) (keys : list (field * string)) (pg : page) : page :=
  foldl (λ pg' key, step t (Change key.1 key.2) pg') pg keys.

(** The draft after the keystrokes. *)
Definition typed (keys : list (field * string)) (draft : gmap string string)
    : gmap string string :=
  foldl (λ d key, <[field_name key.1 := key.2]> d) draft keys.

End Loop.

(* ===================================================================== *)
(** * Properties *)
(* ===================================================================== *)

Import Supabase Effects App Browser Expect View Loop.

(** ** Order of a column *)

Lemma string_leb_trans (a b c : string) :
  String.leb a b = true → String.leb b c = true → String.leb a c = true.
Proof.
  unfold String.leb. revert b c.
  induction a as [|x a IH]; intros [|y b] [|z c]; simpl; try done.
  unfold Ascii.compare.
  destruct (N.compare_spec (Ascii.N_of_ascii x) (Ascii.N_of_ascii y)) as [Hxy|Hxy|Hxy];
    destruct (N.compare_spec (Ascii.N_of_ascii y) (Ascii.N_of_ascii z)) as [Hyz|Hyz|Hyz];
    try done.
  - rewrite Hxy, Hyz, N.compare_refl. apply IH.
  - intros _ _. rewrite Hxy. by apply N.compare_lt_iff in Hyz as ->.
  - intros _ _. rewrite <- Hyz. by apply N.compare_lt_iff in Hxy as ->.
  - intros _ _.
    assert (Ascii.N_of_ascii x < Ascii.N_of_ascii z)%N as Hxz by lia.
    by apply N.compare_lt_iff in Hxz as ->.
Qed.

Lemma val_leb_trans (a b c : val) :
  Store.val_leb a b = true → Store.val_leb b c = true → Store.val_leb a c = true.
Proof.
  destruct a, b, c; simpl; try done.
  - intros ?%Z.leb_le ?%Z.leb_le. apply Z.leb_le. lia.
  - apply string_leb_trans.
Qed.

Lemma val_leb_total (a b : val) :
  Store.val_leb a b = true ∨ Store.val_leb b a = true.
Proof.
  destruct a, b; simpl; auto.
  - destruct (Z.leb_spec n n0); [by left | right; apply Z.leb_le; lia].
  - apply String.leb_total.
Qed.

Global Instance row_le_trans col : Transitive (Store.row_le col).
Proof. intros a b c. apply val_leb_trans. Qed.

Global Instance row_le_total col : Total (Store.row_le col).
Proof. intros a b. apply val_leb_total. Qed.

(** ** Call next *)

(** The whole run of [handleCallNext] on a queue headed by an entry, the
    two calls settling with [ru] and [rh]. *)
Lemma handleCallNext_run now (w : world) (a : gmap string val) (rest : list val)
    (ru rh : response) :
  fila (st w) = VObj a :: rest →
  exec now (handleCallNext (fila (st w))) [ru; rh] w =
    Done {| st := State (form (st w)) rest false;
            net := net w ++ [update_of now (default VUndefined (a !! "id"));
                             history_of now a];
            console := console w
                       ++ logged "Erro ao chamar veículo:" (error ru)
                       ++ logged "Erro ao registrar histórico:" (error rh) |}.
Proof.
  intros Hq. rewrite Hq. destruct w as [[f q l] n c]; simpl in Hq; subst q.
  destruct ru as [du [eu|]], rh as [dh [eh|]]; cbn;
    unfold send, log, with_fila, with_loading; cbn;
    rewrite <- ?(assoc_L (++)); cbn; rewrite ?app_nil_r; reflexivity.
Qed.

(** When only the update has settled, the history insert is already on
    its way. *)
Lemma handleCallNext_after_update now (w : world) (a : gmap string val)
    (rest : list val) (ru : response) :
  fila (st w) = VObj a :: rest →
  ∃ k w1, exec now (handleCallNext (fila (st w))) [ru] w = Suspended k w1
          ∧ net w1 = net w ++ [update_of now (default VUndefined (a !! "id"));
                               history_of now a].
Proof.
  intros Hq. rewrite Hq. cbn. eexists _, _. split; [reflexivity|].
  cbn. by rewrite <- (assoc_L (++)).
Qed.

(** C1. On a queue whose head is an entry, call next removes exactly that
    head from the local queue, whatever the two remote calls answer. *)
Theorem callNext_removes_head now (w : world) (a : gmap string val)
    (rest : list val) (ru rh : response) :
  fila (st w) = VObj a :: rest →
  ∃ w', exec now (handleCallNext (fila (st w))) [ru; rh] w = Done w'
        ∧ fila (st w') = rest
        ∧ fila (st w) = VObj a :: fila (st w').
Proof.
  intros Hq. eexists. split; [by apply handleCallNext_run|]. by cbn.
Qed.

Lemma callNext_removes_head_witness :
  ∃ w', exec "2024-05-01T13:00:00.000Z"
             (handleCallNext [VObj Sample.A; VObj Sample.B])
             [Sample.failed "timeout"; Sample.failed "denied"]
             (Sample.idle [VObj Sample.A; VObj Sample.B]) = Done w'
        ∧ fila (st w') = [VObj Sample.B]
        ∧ [VObj Sample.A; VObj Sample.B] = VObj Sample.A :: fila (st w').
Proof.
  exact (callNext_removes_head "2024-05-01T13:00:00.000Z"
           (Sample.idle [VObj Sample.A; VObj Sample.B]) Sample.A [VObj Sample.B]
           (Sample.failed "timeout") (Sample.failed "denied") eq_refl).
Defined.

(** C2. On a queue headed by entry [a], call next sends exactly two
    queries: one update of the [fila] row whose [id] is [a]'s, setting
    [status] to "Chamado" and [chamado_at] to the clock reading, then one
    insert into [historico] with [veiculo_id] = [a]'s [id], [acao] =
    "Chamado", [at] = the same clock reading and [payload] = the local
    entry [a]. *)
Theorem callNext_requests now (w : world) (a : gmap string val)
    (rest : list val) (ru rh : response) :
  fila (st w) = VObj a :: rest →
  ∃ w', exec now (handleCallNext (fila (st w))) [ru; rh] w = Done w'
        ∧ net w' = net w ++ [update_of now (default VUndefined (a !! "id"));
                             history_of now a].
Proof.
  intros Hq. eexists. split; [by apply handleCallNext_run|]. by cbn.
Qed.

Lemma callNext_requests_witness :
  ∃ w', exec "2024-05-01T13:00:00.000Z"
             (handleCallNext [VObj Sample.A; VObj Sample.B])
             [Sample.ok; Sample.ok]
             (Sample.idle [VObj Sample.A; VObj Sample.B]) = Done w'
        ∧ net w' = [update_of "2024-05-01T13:00:00.000Z" (VNum 1);
                    history_of "2024-05-01T13:00:00.000Z" Sample.A].
Proof.
  exact (callNext_requests "2024-05-01T13:00:00.000Z"
           (Sample.idle [VObj Sample.A; VObj Sample.B]) Sample.A [VObj Sample.B]
           Sample.ok Sample.ok eq_refl).
Defined.

(** C3. On a queue headed by an entry, both writes are sent once each,
    the history insert as soon as the update has settled and whatever it
    answered; afterwards each error is logged on its own, a line for the
    update iff the update failed and a line for the history iff the
    insert failed. *)
Theorem callNext_writes_independent now (w : world) (a : gmap string val)
    (rest : list val) (ru rh : response) :
  fila (st w) = VObj a :: rest →
  ∃ w' u h,
    exec now (handleCallNext (fila (st w))) [ru; rh] w = Done w'
    ∧ net w' = net w ++ [u; h]
    ∧ (table u = "fila" ∧ is_update u)
    ∧ (table h = "historico" ∧ is_insert h)
    ∧ (∃ k w1, exec now (handleCallNext (fila (st w))) [ru] w = Suspended k w1
               ∧ net w1 = net w ++ [u; h])
    ∧ console w' = console w
                   ++ logged "Erro ao chamar veículo:" (error ru)
                   ++ logged "Erro ao registrar histórico:" (error rh).
Proof.
  intros Hq. eexists _, _, _. split; [by apply handleCallNext_run|].
  cbn. split; [reflexivity|].
  split; [split; [reflexivity|by eexists]|].
  split; [split; [reflexivity|by eexists]|].
  split; [by eapply handleCallNext_after_update|reflexivity].
Qed.

Lemma callNext_writes_independent_witness :
  ∃ w' u h,
    exec "2024-05-01T13:00:00.000Z"
         (handleCallNext [VObj Sample.A; VObj Sample.B])
         [Sample.failed "timeout"; Sample.ok]
         (Sample.idle [VObj Sample.A; VObj Sample.B]) = Done w'
    ∧ net w' = [u; h]
    ∧ (table u = "fila" ∧ is_update u)
    ∧ (table h = "historico" ∧ is_insert h)
    ∧ (∃ k w1, exec "2024-05-01T13:00:00.000Z"
                    (handleCallNext [VObj Sample.A; VObj Sample.B])
                    [Sample.failed "timeout"]
                    (Sample.idle [VObj Sample.A; VObj Sample.B]) = Suspended k w1
               ∧ net w1 = [u; h])
    ∧ console w' = [("Erro ao chamar veículo:", VStr "timeout")].
Proof.
  exact (callNext_writes_independent "2024-05-01T13:00:00.000Z"
           (Sample.idle [VObj Sample.A; VObj Sample.B]) Sample.A [VObj Sample.B]
           (Sample.failed "timeout") Sample.ok eq_refl).
Defined.

(** C8. With an empty local queue, call next sends nothing and leaves the
    queue, the draft and the busy flag as they were: the handler returns
    at once, and the button that would invoke it does not fire. *)
Theorem callNext_empty_noop now (w : world) (rs : list response)
    (waiting : list (response → prog)) (alive : bool) :
  fila (st w) = [] →
  exec now (handleCallNext (fila (st w))) rs w = Done w
  ∧ step now CallNext (Page w waiting alive) = Page w waiting alive.
Proof.
  intros Hq. split.
  - by rewrite Hq.
  - unfold step, callNext_disabled. cbn. rewrite Hq. cbn.
    by rewrite orb_true_r, andb_false_r.
Qed.

Lemma callNext_empty_noop_witness :
  exec "2024-05-01T13:00:00.000Z" (handleCallNext [])
       [Sample.ok; Sample.ok] (Sample.typing []) = Done (Sample.typing [])
  ∧ step "2024-05-01T13:00:00.000Z" CallNext (Page (Sample.typing []) [] true)
    = Page (Sample.typing []) [] true.
Proof.
  exact (callNext_empty_noop "2024-05-01T13:00:00.000Z" (Sample.typing [])
           [Sample.ok; Sample.ok] [] true eq_refl).
Defined.

(** ** Load *)

Lemma fetchQueue_run now (w : world) (r : response) :
  exec now fetchQueue [r] w =
    Done {| st := State (form (st w))
                        (match error r with
                         | None => VObj <$> default [] (data r)
                         | Some _ => fila (st w)
                         end) false;
            net := net w ++ [waiting_rows];
            console := console w ++ logged "Erro ao buscar fila:" (error r) |}.
Proof.
  destruct w as [[f q l] n c], r as [d [e|]]; cbn; [reflexivity|].
  by rewrite app_nil_r.
Qed.

Lemma satisfies_na_fila (row : gmap string val) :
  Store.satisfies [("status", VStr "Na fila")] row = true ↔ na_fila row.
Proof.
  unfold Store.satisfies, Store.cell, na_fila. cbn. rewrite andb_true_r.
  destruct (row !! "status") as [[| |n|s|o]|]; cbn; try (split; [done|congruence]).
  rewrite String.eqb_eq. split; [by intros ->|congruence].
Qed.

(** The store's answer to the query of [fetchQueue]: the waiting rows,
    ordered by arrival. *)
Lemma run_select_waiting_rows (tbl : list (gmap string val)) :
  Store.run_select tbl waiting_rows
  = merge_sort (Store.row_le "chegada_at") (filter na_fila tbl).
Proof.
  unfold Store.run_select. cbn. f_equal.
  apply list_filter_iff. intros row. apply satisfies_na_fila.
Qed.

(** C4. A load sends the query for the waiting rows. If it goes through,
    the local queue becomes exactly the rows returned, which for a store
    holding table [tbl] are the rows of [tbl] with status "Na fila" in
    ascending order of [chegada_at]. If it fails, the error is logged and
    the local queue is the one from before. *)
Theorem load_spec now (w : world) (r : response) :
  ∃ w', exec now fetchQueue [r] w = Done w'
    ∧ net w' = net w ++ [waiting_rows]
    ∧ (error r = None → fila (st w') = VObj <$> default [] (data r))
    ∧ (∀ tbl, r = Store.answer tbl waiting_rows →
         ∃ rows, fila (st w') = VObj <$> rows
                 ∧ rows ≡ₚ filter na_fila tbl
                 ∧ StronglySorted (Store.row_le "chegada_at") rows)
    ∧ (∀ e, error r = Some e →
         fila (st w') = fila (st w)
         ∧ console w' = console w ++ [("Erro ao buscar fila:", VStr (message e))]).
Proof.
  eexists. split; [apply fetchQueue_run|]. cbn.
  split; [reflexivity|]. split; [by intros ->|]. split.
  - intros tbl ->. cbn -[Store.run_select]. rewrite run_select_waiting_rows.
    eexists. split; [reflexivity|]. split.
    + apply merge_sort_Permutation.
    + apply (StronglySorted_merge_sort _).
  - intros e ->. by cbn.
Qed.

Lemma load_spec_witness :
  (∃ w', exec "2024-05-01T13:00:00.000Z" fetchQueue
              [Store.answer [Sample.B; Sample.C; Sample.A] waiting_rows]
              (Sample.idle []) = Done w'
         ∧ ∃ rows, fila (st w') = VObj <$> rows
                   ∧ rows ≡ₚ filter na_fila [Sample.B; Sample.C; Sample.A]
                   ∧ StronglySorted (Store.row_le "chegada_at") rows)
  ∧ (∃ w', exec "2024-05-01T13:00:00.000Z" fetchQueue
                [Sample.failed "Failed to fetch"]
                (Sample.idle [VObj Sample.A]) = Done w'
           ∧ fila (st w') = [VObj Sample.A]
           ∧ console w' = [("Erro ao buscar fila:", VStr "Failed to fetch")]).
Proof.
  split.
  - destruct (load_spec "2024-05-01T13:00:00.000Z" (Sample.idle [])
                (Store.answer [Sample.B; Sample.C; Sample.A] waiting_rows))
      as (w' & Hrun & _ & _ & Hok & _).
    exists w'. split; [exact Hrun|]. exact (Hok _ eq_refl).
  - destruct (load_spec "2024-05-01T13:00:00.000Z" (Sample.idle [VObj Sample.A])
                (Sample.failed "Failed to fetch"))
      as (w' & Hrun & _ & _ & _ & Hko).
    exists w'. split; [exact Hrun|]. exact (Hko _ eq_refl).
Defined.

(** ** Submit *)

Lemma handleSubmit_run now (w : world) (r : response) :
  exec now (handleSubmit (form (st w))) [r] w =
    Done {| st := match error r, data r with
                  | None, Some d =>
                      State initialForm (fila (st w) ++ [first_row d]) false
                  | _, _ => State (form (st w)) (fila (st w)) false
                  end;
            net := net w ++ [insert_of (form (st w))];
            console := console w ++
                       match error r, data r with
                       | None, Some _ => []
                       | _, _ => [("Erro ao inserir veículo:",
                                   optional_message (error r))]
                       end |}.
Proof.
  destruct w as [[f q l] n c], r as [[d|] [e|]]; cbn; try reflexivity.
  by rewrite app_nil_r.
Qed.

Lemma initialForm_all_empty : all_empty initialForm.
Proof.
  intros k v H. unfold initialForm in H.
  repeat (apply lookup_insert_Some in H as [[_ <-]|[_ H]]; [reflexivity|]).
  by rewrite lookup_empty in H.
Qed.

(** [initialForm] field by field: the eight fields of the form, each the
    empty string, and nothing else. *)
Lemma initialForm_lookup (k : string) :
  initialForm !! k
  = if bool_decide (k ∈ ["placa_cavalo"; "placa_carreta"; "motorista"; "origem";
                         "destino"; "tipo"; "prioridade"; "observacoes"])
    then Some "" else None.
Proof.
  unfold initialForm.
  repeat (rewrite lookup_insert; destruct (decide (_ = k)) as [<-|?]; [reflexivity|]).
  rewrite lookup_empty, bool_decide_eq_false_2; [reflexivity|].
  rewrite !elem_of_cons, elem_of_nil. intros H.
  repeat (destruct H as [->|H]; [congruence|]). exact H.
Qed.

Lemma stored_na_fila (draft : gmap string string) (row : gmap string val) :
  Store.stored (insert_of draft) row → na_fila row.
Proof.
  unfold Store.stored, na_fila. cbn. intros Hsub.
  eapply lookup_weaken; [|exact Hsub]. apply lookup_insert_eq.
Qed.

(** C5. A submit sends one insert of the draft with status "Na fila". If
    it goes through and the store returns the stored row, that row, whose
    status is "Na fila", is appended to the end of the local queue and
    the draft is reset: it has the eight fields of the form, each the
    empty string, and no other field. If it fails, the error is logged
    and both the draft and the local queue are the ones from before. *)
Theorem submit_spec now (w : world) (r : response) :
  ∃ w', exec now (handleSubmit (form (st w))) [r] w = Done w'
    ∧ net w' = net w ++ [insert_of (form (st w))]
    ∧ (∀ row more,
         error r = None → data r = Some (row :: more) →
         Store.stored (insert_of (form (st w))) row →
         fila (st w') = fila (st w) ++ [VObj row]
         ∧ na_fila row
         ∧ form (st w') = initialForm
         ∧ all_empty (form (st w'))
         ∧ ∀ k, form (st w') !! k
                = if bool_decide
                       (k ∈ ["placa_cavalo"; "placa_carreta"; "motorista";
                             "origem"; "destino"; "tipo"; "prioridade";
                             "observacoes"])
                  then Some "" else None)
    ∧ (∀ e, error r = Some e →
         console w' = console w ++ [("Erro ao inserir veículo:", VStr (message e))]
         ∧ form (st w') = form (st w)
         ∧ fila (st w') = fila (st w)).
Proof.
  eexists. split; [apply handleSubmit_run|]. cbn.
  split; [reflexivity|]. split.
  - intros row more -> -> Hst. cbn.
    split; [reflexivity|].
    split; [exact (stored_na_fila (form (st w)) row Hst)|].
    split; [reflexivity|].
    split; [apply initialForm_all_empty|apply initialForm_lookup].
  - intros e ->. cbn. by destruct (data r).
Qed.

Lemma submit_spec_witness :
  (∃ w', exec "2024-05-01T13:00:00.000Z" (handleSubmit Sample.draft)
              [Response (Some [Sample.D]) None]
              (Sample.typing [VObj Sample.A]) = Done w'
         ∧ fila (st w') = [VObj Sample.A; VObj Sample.D]
         ∧ na_fila Sample.D
         ∧ form (st w') = initialForm
         ∧ all_empty (form (st w'))
         ∧ ∀ k, form (st w') !! k
                = if bool_decide
                       (k ∈ ["placa_cavalo"; "placa_carreta"; "motorista";
                             "origem"; "destino"; "tipo"; "prioridade";
                             "observacoes"])
                  then Some "" else None)
  ∧ (∃ w', exec "2024-05-01T13:00:00.000Z" (handleSubmit Sample.draft)
                [Sample.failed "permission denied"]
                (Sample.typing [VObj Sample.A]) = Done w'
           ∧ console w' = [("Erro ao inserir veículo:", VStr "permission denied")]
           ∧ form (st w') = Sample.draft
           ∧ fila (st w') = [VObj Sample.A]).
Proof.
  split.
  - destruct (submit_spec "2024-05-01T13:00:00.000Z" (Sample.typing [VObj Sample.A])
                (Response (Some [Sample.D]) None))
      as (w' & Hrun & _ & Hok & _).
    exists w'. split; [exact Hrun|].
    apply (Hok Sample.D [] eq_refl eq_refl).
    unfold Store.stored, Sample.D. simpl.
    etrans; [|apply insert_subseteq; reflexivity].
    apply insert_subseteq; reflexivity.
  - destruct (submit_spec "2024-05-01T13:00:00.000Z" (Sample.typing [VObj Sample.A])
                (Sample.failed "permission denied"))
      as (w' & Hrun & _ & _ & Hko).
    exists w'. split; [exact Hrun|]. exact (Hko _ eq_refl).
Defined.

(** C10. When the insert of a submit settles with neither an error nor
    data, the handler takes its failure branch: one line is logged (its
    message argument [undefined]), nothing is appended to the local queue
    and the draft is the one from before. *)
Theorem submit_without_data now (w : world) :
  ∃ w', exec now (handleSubmit (form (st w))) [Response None None] w = Done w'
    ∧ console w' = console w ++ [("Erro ao inserir veículo:", VUndefined)]
    ∧ fila (st w') = fila (st w)
    ∧ form (st w') = form (st w).
Proof.
  eexists. split; [apply handleSubmit_run|]. by cbn.
Qed.

(** The handler itself looks neither at the draft nor at the busy flag:
    invoked directly it sends the insert whatever they are. *)
Remark handleSubmit_unguarded now (w : world) :
  ∃ k w1, exec now (handleSubmit (form (st w))) [] w = Suspended k w1
          ∧ net w1 = net w ++ [insert_of (form (st w))].
Proof. by eexists _, _. Qed.

(** An insert that settles without error but with an empty array makes
    [data[0]] a hole in the queue; the next render throws on it and the
    page is unmounted. *)
Remark handleSubmit_empty_array now (w : world) (waiting : list (response → prog)) :
  exec now (handleSubmit (form (st w))) [Response (Some []) None] w
  = Done {| st := State initialForm (fila (st w) ++ [VUndefined]) false;
            net := net w ++ [insert_of (form (st w))];
            console := console w |}
  ∧ mounted (commit waiting true
               (exec now (handleSubmit (form (st w))) [Response (Some []) None] w))
    = false.
Proof.
  rewrite handleSubmit_run. cbn. rewrite app_nil_r. split; [reflexivity|].
  unfold renders. cbn. rewrite forallb_app. cbn. by rewrite andb_false_r.
Qed.

(** C6. While the tractor plate of the draft is the empty string, a
    submit does not reach the handler: the page is left as it was, so no
    query is sent and the state is unchanged. *)
Theorem submit_empty_plate_rejected now (pg : page) :
  form (st (world_of pg)) !! "placa_cavalo" = Some "" →
  step now Submit pg = pg.
Proof.
  intros Hplate. unfold step, placa_cavalo_value. rewrite Hplate. cbn.
  by rewrite andb_false_r.
Qed.

Lemma submit_empty_plate_rejected_witness :
  step "2024-05-01T13:00:00.000Z" Submit (Page (Sample.idle [VObj Sample.A]) [] true)
  = Page (Sample.idle [VObj Sample.A]) [] true.
Proof.
  exact (submit_empty_plate_rejected "2024-05-01T13:00:00.000Z"
           (Page (Sample.idle [VObj Sample.A]) [] true) eq_refl).
Defined.

(** ** The busy flag *)

Lemma runs_seq b c d (p q : prog) :
  runs b c p → runs c d q → runs b d (p ;; q)%prog.
Proof.
  intros Hp Hq. induction Hp; cbn; try (constructor; auto); auto.
Qed.

(** One synchronous stretch of a program that [runs]. *)
Lemma runs_exec now b b' (p : prog) (w : world) :
  runs b b' p → loading (st w) = b →
  forallb row_or_hole (fila (st w)) = true →
  match exec now p [] w with
  | Done w' =>
      loading (st w') = b' ∧ forallb row_or_hole (fila (st w')) = true
  | Suspended k w' =>
      loading (st w') = true ∧ forallb row_or_hole (fila (st w')) = true
      ∧ ∀ r, runs true b' (k r)
  | Thrown _ _ => False
  end.
Proof.
  intros Hp. revert w.
  induction Hp as [b|b b' f k _ IH|b b' f k Hf _ IH|b c b' k _ IH|b b' l a k _ IH
                   |b b' k _ IH|b' q k Hk _]; intros w Hw Hq; cbn.
  - by split.
  - by apply IH.
  - apply IH; [exact Hw|]. cbn. by apply Hf.
  - by apply IH.
  - by apply IH.
  - by apply IH.
  - by repeat split.
Qed.

Lemma row_or_hole_rows (rows : list (gmap string val)) :
  forallb row_or_hole (VObj <$> rows) = true.
Proof. induction rows as [|row rows IH]; [done|]. exact IH. Qed.

Lemma row_or_hole_first_row (d : list (gmap string val)) :
  row_or_hole (first_row d) = true.
Proof. by destruct d. Qed.

Lemma row_or_hole_snoc (queue : list val) (v : val) :
  forallb row_or_hole queue = true → row_or_hole v = true →
  forallb row_or_hole (queue ++ [v]) = true.
Proof. intros Hq Hv. rewrite forallb_app, Hq. cbn. by rewrite Hv. Qed.

Lemma row_or_hole_drop (n : nat) (queue : list val) :
  forallb row_or_hole queue = true → forallb row_or_hole (drop n queue) = true.
Proof.
  intros Hq. rewrite <- (take_drop n queue), forallb_app in Hq.
  by apply andb_true_iff in Hq as [_ ?].
Qed.

Lemma fetchQueue_runs b : runs b false fetchQueue.
Proof.
  unfold fetchQueue. cbn. constructor. constructor. intros r.
  destruct (error r); cbn; repeat constructor.
  intros _ _. apply row_or_hole_rows.
Qed.

Lemma handleSubmit_runs b (draft : gmap string string) :
  runs b false (handleSubmit draft).
Proof.
  unfold handleSubmit. cbn. constructor. constructor. intros r.
  destruct (error r), (data r); cbn; repeat constructor.
  intros queue Hq. apply row_or_hole_snoc; [exact Hq|apply row_or_hole_first_row].
Qed.

Lemma handleChange_runs b (f value : string) : runs b b (handleChange f value).
Proof. repeat constructor. Qed.

Lemma handleCallNext_runs b (queue : list val) :
  queue ≠ [] → forallb (λ item, negb (nullish item)) queue = true →
  runs b false (handleCallNext queue).
Proof.
  destruct queue as [|next rest]; [done|]. intros _ Hr.
  cbn in Hr. apply andb_true_iff in Hr as [Hnext _].
  unfold handleCallNext, index, member. cbn.
  destruct next; try done; cbn;
    (constructor; constructor; intros now; constructor; intros ru;
     constructor; intros rh;
     destruct (error ru), (error rh); cbn; repeat constructor;
     intros queue; apply (row_or_hole_drop 1)).
Qed.

(** An item that renders is not nullish, so its properties can be read. *)
Lemma item_renders_not_nullish (item : val) :
  item_renders item = true → nullish item = false.
Proof. by destruct item. Qed.

Lemma renders_not_nullish (s : state) :
  renders s = true → forallb (λ item, negb (nullish item)) (fila s) = true.
Proof.
  unfold renders. rewrite !forallb_forall. intros H item Hin.
  by rewrite (item_renders_not_nullish item (H item Hin)).
Qed.

(** Committing a stretch of a well-behaved program on a page with nothing
    else pending. *)
Lemma commit_page_ok now b (p : prog) (w : world) (alive : bool) :
  runs b false p → loading (st w) = b →
  forallb row_or_hole (fila (st w)) = true →
  page_ok (commit [] alive (exec now p [] w)).
Proof.
  intros Hp Hw Hq. pose proof (runs_exec now b false p w Hp Hw Hq) as H.
  destruct (exec now p [] w) as [w'|e w'|k w']; [|done|].
  - destruct H as [Hl Hq']. repeat split; cbn; [exact Hl|exact Hq'|].
    by intros [_ ?]%andb_true_iff.
  - destruct H as (Hl & Hq' & Hk). repeat split; cbn; [exact Hl|exact Hk|exact Hq'|].
    by intros [_ ?]%andb_true_iff.
Qed.

(** A page that satisfies the invariant with the flag down has nothing
    pending. *)
Lemma page_ok_idle (pg : page) :
  page_ok pg → loading (st (world_of pg)) = false → pending pg = [].
Proof.
  intros [Hp _] Hl. destruct (pending pg) as [|k [|k' ks]]; [done| |done].
  destruct Hp as [Hl' _]. congruence.
Qed.

Lemma page_ok_boot now : page_ok (boot now).
Proof. apply (commit_page_ok now false); [apply fetchQueue_runs|done|done]. Qed.

Lemma page_ok_step now (e : event) (pg : page) :
  page_ok pg → page_ok (step now e pg).
Proof.
  intros Hok. destruct pg as [w waiting alive].
  destruct e as [f value| | |i r]; unfold step, dispatch;
    cbn [world_of pending mounted].
  - destruct alive; [|exact Hok].
    destruct Hok as (Hp & Hq & Hr). cbn in *.
    repeat split; cbn; [|exact Hq|done].
    destruct waiting as [|k [|k' ks]]; done.
  - destruct (alive && negb (submit_disabled (st w))
              && negb (String.eqb (placa_cavalo_value (st w)) "")) eqn:Hguard;
      [|exact Hok].
    apply andb_true_iff in Hguard as [[_ Hl%negb_true_iff]%andb_true_iff _].
    pose proof (page_ok_idle _ Hok Hl) as Hidle. cbn in Hidle. subst waiting.
    apply (commit_page_ok now false); [apply handleSubmit_runs|exact Hl|apply Hok].
  - destruct (alive && negb (callNext_disabled (st w))) eqn:Hguard; [|exact Hok].
    apply andb_true_iff in Hguard as [-> Hd%negb_true_iff].
    apply orb_false_iff in Hd as [Hl Hlen].
    pose proof (page_ok_idle _ Hok Hl) as Hidle. cbn in Hidle. subst waiting.
    apply (commit_page_ok now false); [|exact Hl|apply Hok].
    apply handleCallNext_runs.
    + intros Hnil. by rewrite Hnil in Hlen.
    + apply renders_not_nullish. by apply Hok.
  - destruct Hok as (Hp & Hq & Hr). cbn [world_of pending mounted] in *.
    destruct waiting as [|k [|k' ks]]; [by repeat split| |done].
    destruct i as [|i]; cbn [lookup list_lookup delete list_delete].
    + destruct Hp as [Hl Hk]. by apply (commit_page_ok now true).
    + destruct i; exact (conj Hp (conj Hq Hr)).
Qed.

Lemma page_ok_reachable (pg : page) : reachable pg → page_ok pg.
Proof.
  induction 1 as [now|now e pg _ IH]; [apply page_ok_boot|by apply page_ok_step].
Qed.

(** On a mounted page every item of the local queue is an entry. *)
Lemma reachable_queue_entries (pg : page) (item : val) :
  reachable pg → mounted pg = true → item ∈ fila (st (world_of pg)) →
  ∃ a, item = VObj a.
Proof.
  intros (_ & Hq & Hr)%page_ok_reachable Hm Hin. specialize (Hr Hm).
  unfold renders in Hr. rewrite forallb_forall in Hq, Hr.
  apply list_elem_of_In in Hin.
  specialize (Hq _ Hin). specialize (Hr _ Hin).
  destruct item; try done. by eexists.
Qed.

(** Call next on a page: on a reachable, mounted, idle page with a
    non-empty queue the click runs the handler, and once its two calls have
    settled the queue has lost its head and the flag is down again. *)
Lemma callNext_on_page t1 t2 t3 (pg : page) (next : val) (rest : list val)
    (ru rh : response) :
  reachable pg → mounted pg = true → loading (st (world_of pg)) = false →
  fila (st (world_of pg)) = next :: rest →
  let pg' := step t3 (Settle 0 rh) (step t2 (Settle 0 ru) (step t1 CallNext pg)) in
  fila (st (world_of pg')) = rest
  ∧ loading (st (world_of pg')) = false
  ∧ pending pg' = []
  ∧ length (net (world_of pg')) = (length (net (world_of pg)) + 2)%nat.
Proof.
  intros Hreach Hm Hl Hq.
  destruct (reachable_queue_entries pg next Hreach Hm) as [a ->];
    [rewrite Hq; apply list_elem_of_here|].
  pose proof (page_ok_idle pg (page_ok_reachable pg Hreach) Hl) as Hidle.
  destruct pg as [[[f q l] n c] waiting alive]. cbn in Hm, Hl, Hq, Hidle. subst.
  destruct ru as [du [eu|]], rh as [dh [eh|]]; cbn;
    rewrite !length_app; cbn; repeat split; lia.
Qed.

(** A disabled button does not fire. *)
Lemma step_busy now (e : event) (pg : page) :
  starts_operation e = true → loading (st (world_of pg)) = true →
  step now e pg = pg.
Proof.
  intros He Hl. destruct e; try done; unfold step, submit_disabled, callNext_disabled;
    rewrite Hl; cbn; by rewrite ?andb_false_r.
Qed.

(** C7. In every state the page can reach, the busy flag is up exactly
    while an operation is in flight (so down at rest), at most one
    operation is in flight, and a submit or call next arriving while the
    flag is up is ignored before anything is sent; the load runs once, at
    mount, with the flag down. *)
Theorem busy_flag_discipline (pg : page) :
  reachable pg →
  (loading (st (world_of pg)) = true ↔ pending pg ≠ [])
  ∧ (length (pending pg) ≤ 1)%nat
  ∧ (∀ now e, starts_operation e = true →
       loading (st (world_of pg)) = true → step now e pg = pg)
  ∧ (∀ now, ∃ k, boot now = Page (World (State initialForm [] true) [waiting_rows] [])
                                 [k] true).
Proof.
  intros (Hp & _)%page_ok_reachable. split; [|split; [|split]].
  - destruct (pending pg) as [|k [|k' ks]]; [|by destruct Hp|done].
    rewrite Hp. split; done.
  - destruct (pending pg) as [|k [|k' ks]]; cbn; [lia|lia|done].
  - intros now e. apply step_busy.
  - intros now. by eexists.
Qed.

Lemma busy_flag_discipline_witness :
  (loading (st (world_of Sample.submitting)) = true ↔ pending Sample.submitting ≠ [])
  ∧ (length (pending Sample.submitting) ≤ 1)%nat
  ∧ (∀ now e, starts_operation e = true →
       loading (st (world_of Sample.submitting)) = true →
       step now e Sample.submitting = Sample.submitting)
  ∧ (∀ now, ∃ k, boot now = Page (World (State initialForm [] true) [waiting_rows] [])
                                 [k] true).
Proof.
  apply (busy_flag_discipline Sample.submitting).
  unfold Sample.submitting. repeat apply reachable_step. apply reachable_boot.
Defined.

(** ** The client module *)

(** [supabaseClient.js] hands whatever the environment holds, [undefined]
    included, to [createClient] and exports what it returns or lets its
    exception through: the module checks nothing itself. *)
Lemma supabase_unchecked (client : Type) (createClient : val → val → exn + client)
    (env : gmap string string) :
  Client.supabase client createClient env
  = createClient (from_option VStr VUndefined (env !! "VITE_SUPABASE_URL"))
                 (from_option VStr VUndefined (env !! "VITE_SUPABASE_ANON_KEY")).
Proof. reflexivity. Qed.

(* ===================================================================== *)
(** * Further properties of the component *)
(* ===================================================================== *)

(** ** Invariants of the event loop, generically *)

Lemma reachable_under_reachable G (pg : page) : reachable_under G pg → reachable pg.
Proof. induction 1; [apply reachable_boot|by apply reachable_step]. Qed.

Lemma reachable_reachable_under (pg : page) :
  reachable pg → reachable_under (λ _ _, True) pg.
Proof.
  induction 1 as [now|now e pg _ IH]; [apply under_boot|].
  apply under_step; [exact IH|by destruct e].
Qed.

Section Invariant.

Variable I : state → Prop.
Variable Q : query → Prop.
Variable G : query → response → Prop.
Variable L : string → val → Prop.

Hypothesis boot_inv : ∀ now, page_inv I Q G L (boot now).
Hypothesis change_safe : ∀ f value, safe I Q G L (handleChange (field_name f) value).
Hypothesis submit_safe : ∀ s, I s → safe I Q G L (handleSubmit (form s)).
Hypothesis callNext_safe : ∀ s, I s → safe I Q G L (handleCallNext (fila s)).

(** One synchronous stretch of a safe program. *)
Lemma safe_exec now (p : prog) (w : world) :
  safe I Q G L p → I (st w) → Forall (λ line, L line.1 line.2) (console w) →
  match exec now p [] w with
  | Done w' | Thrown _ w' =>
      I (st w') ∧ net w' = net w ∧ Forall (λ line, L line.1 line.2) (console w')
  | Suspended k w' =>
      I (st w') ∧ Forall (λ line, L line.1 line.2) (console w')
      ∧ ∃ q, net w' = net w ++ [q] ∧ Q q ∧ ∀ r, G q r → safe I Q G L (k r)
  end.
Proof.
  intros Hp. revert w.
  induction Hp as [|e|f k Hf _ IH|f k Hf _ IH|b k Hb _ IH|l a k Hl _ IH|k _ IH
                   |q k Hq Hk _]; intros w HI HL; cbn.
  - done.
  - done.
  - apply (IH (with_form f w)); [by apply Hf|done].
  - apply (IH (with_fila f w)); [by apply Hf|done].
  - apply (IH (with_loading b w)); [by apply Hb|done].
  - apply (IH (log l a w)); [done|]. cbn. apply Forall_app. split; [done|].
    by constructor.
  - by apply IH.
  - repeat split; [done..|]. by exists q.
Qed.

Lemma page_inv_commit now (p : prog) (w : world) (alive : bool) :
  safe I Q G L p → page_inv I Q G L (Page w [] alive) →
  page_inv I Q G L (commit [] alive (exec now p [] w)).
Proof.
  intros Hp (HI & (qs & Hnet & HQ) & HL & _). cbn in *.
  pose proof (safe_exec now p w Hp HI HL) as H.
  destruct (exec now p [] w) as [w'|e w'|k w'].
  - destruct H as (HI' & Hn & HL'). repeat split; cbn; [done| |done].
    exists qs. by rewrite Hn.
  - destruct H as (HI' & Hn & HL'). repeat split; cbn; [done| |done].
    exists qs. by rewrite Hn.
  - destruct H as (HI' & HL' & q & Hn & Hq & Hk). repeat split; cbn; [done| |done|].
    + exists (qs ++ [q]). rewrite Hn, Hnet. split; [done|].
      apply Forall_app. split; [done|]. by constructor.
    + exists q. rewrite Hn. split; [apply last_snoc|done].
Qed.

Lemma page_inv_step now (e : event) (pg : page) :
  page_ok pg → page_inv I Q G L pg → answers G pg e →
  page_inv I Q G L (step now e pg).
Proof.
  intros Hok Hinv Hans. destruct pg as [w waiting alive].
  destruct e as [f value| | |i r]; unfold step, dispatch;
    cbn [world_of pending mounted].
  - destruct alive; [|exact Hinv].
    destruct Hinv as (HI & Hnet & HL & Hp). cbn in *.
    pose proof (change_safe f value) as Hs. inversion Hs as [| |g k Hg _| | | | |]; subst.
    repeat split; cbn; [by apply (Hg (st w))|done..].
  - destruct (alive && negb (submit_disabled (st w))
              && negb (String.eqb (placa_cavalo_value (st w)) "")) eqn:Hguard;
      [|exact Hinv].
    apply andb_true_iff in Hguard as [[_ Hl%negb_true_iff]%andb_true_iff _].
    pose proof (page_ok_idle _ Hok Hl) as Hidle. cbn in Hidle. subst waiting.
    apply page_inv_commit; [apply submit_safe; apply Hinv|exact Hinv].
  - destruct (alive && negb (callNext_disabled (st w))) eqn:Hguard; [|exact Hinv].
    apply andb_true_iff in Hguard as [_ Hd%negb_true_iff].
    apply orb_false_iff in Hd as [Hl _].
    pose proof (page_ok_idle _ Hok Hl) as Hidle. cbn in Hidle. subst waiting.
    apply page_inv_commit; [apply callNext_safe; apply Hinv|exact Hinv].
  - destruct waiting as [|k [|k' ks]].
    + by destruct i.
    + destruct i as [|i]; cbn [lookup list_lookup delete list_delete];
        [|by destruct i].
      destruct Hinv as (HI & Hnet & HL & q & Hq & Hk). cbn in *.
      apply page_inv_commit; [by apply Hk, Hans|by repeat split].
    + by destruct Hinv as (_ & _ & _ & ?).
Qed.

Lemma page_inv_reachable (pg : page) :
  reachable_under G pg → page_inv I Q G L pg.
Proof.
  induction 1 as [now|now e pg Hr IH Hans]; [apply boot_inv|].
  apply page_inv_step; [|exact IH|exact Hans].
  by apply page_ok_reachable, (reachable_under_reachable G).
Qed.

End Invariant.

(** ** What is sent, and the fields of the draft *)

Ltac safe_step :=
  first [ apply safe_Return | apply safe_Throw | apply safe_SetForm
        | apply safe_SetFila | apply safe_SetLoading | apply safe_ConsoleError
        | apply safe_NewDate; intros ? | apply safe_Await; [|intros ? ?] ].

Lemma field_name_dom (f : field) : field_name f ∈ dom initialForm.
Proof. apply elem_of_dom. destruct f; by eexists. Qed.

Lemma tidy_change_safe (f : field) (value : string) :
  safe tidy shape (λ _ _, True) label_ok (handleChange (field_name f) value).
Proof.
  repeat safe_step. intros s [Hd Hq]. split; [|exact Hq]. cbn.
  rewrite dom_insert_lookup_L; [exact Hd|].
  apply elem_of_dom. rewrite Hd. apply field_name_dom.
Qed.

Lemma tidy_submit_safe (s : state) :
  tidy s → safe tidy shape (λ _ _, True) label_ok (handleSubmit (form s)).
Proof.
  intros [Hd Hq]. unfold handleSubmit. cbn. safe_step; [by intros ? ?|].
  safe_step; [left; by exists (form s)|].
  destruct (error r) as [e|], (data r) as [d|]; cbn; repeat safe_step;
    try (by intros ? ?); try (right; by left).
  - intros s' [Hd' Hq']. split; [exact Hd'|]. cbn.
    apply row_or_hole_snoc; [exact Hq'|apply row_or_hole_first_row].
  - by intros s' [_ Hq'].
Qed.

Lemma tidy_callNext_safe (s : state) :
  tidy s → safe tidy shape (λ _ _, True) label_ok (handleCallNext (fila s)).
Proof.
  intros [_ Hq]. destruct (fila s) as [|next rest]; [apply safe_Return|].
  cbn in Hq. apply andb_true_iff in Hq as [Hnext _].
  unfold handleCallNext, index, member. cbn.
  destruct next as [| |n|t|a]; try done; cbn.
  - repeat safe_step. by intros ? ?.
  - safe_step; [by intros ? ?|]. safe_step.
    safe_step; [right; left; by eexists _, _|].
    safe_step; [right; right; by eexists _, _|].
    destruct (error r) as [eu|], (error r0) as [eh|]; cbn; repeat safe_step;
      try (by intros ? ?); try (by unfold label_ok; auto);
      intros s' [Hd' Hq']; (split; [exact Hd'|by apply (row_or_hole_drop 1)]).
Qed.

Lemma tidy_boot now : page_inv tidy shape (λ _ _, True) label_ok (boot now).
Proof.
  repeat split; cbn; [by exists []|by constructor|].
  eexists. split; [reflexivity|]. intros r _.
  destruct (error r) as [e|]; cbn; repeat safe_step; try (by intros ? ?);
    try (by left).
  intros s' [Hd' _]. split; [exact Hd'|apply row_or_hole_rows].
Qed.

Lemma tidy_reachable (pg : page) :
  reachable pg → page_inv tidy shape (λ _ _, True) label_ok pg.
Proof.
  intros Hr%reachable_reachable_under. revert Hr.
  apply page_inv_reachable;
    [apply tidy_boot|apply tidy_change_safe|apply tidy_submit_safe
    |apply tidy_callNext_safe].
Qed.

(** X1. On every page the component can reach, the first query sent is
    the load and it is the only select; every query after it is an insert
    into [fila] of a draft that has the eight form fields, with status
    "Na fila", or an update of one [fila] row selected by [id] that sets
    [status] and [chamado_at] only, or an insert of one record into
    [historico]. *)
Theorem traffic_shape (pg : page) :
  reachable pg →
  ∃ qs, net (world_of pg) = waiting_rows :: qs ∧ Forall shape qs.
Proof. intros Hr. by destruct (tidy_reachable pg Hr) as (_ & Hnet & _). Qed.

Lemma traffic_shape_witness :
  ∃ qs, net (world_of Sample.submitting) = waiting_rows :: qs ∧ Forall shape qs.
Proof.
  apply (traffic_shape Sample.submitting).
  unfold Sample.submitting. repeat apply reachable_step. apply reachable_boot.
Defined.

Lemma initialForm_keys (k : string) :
  is_Some (initialForm !! k) ↔ ∃ f, k = field_name f.
Proof.
  split.
  - intros [v H]. unfold initialForm in H.
    repeat (apply lookup_insert_Some in H as [[<- _]|[_ H]];
            [first [by exists placa_cavalo | by exists placa_carreta
                   | by exists motorista | by exists origem | by exists destino
                   | by exists tipo | by exists prioridade
                   | by exists observacoes]|]).
    by rewrite lookup_empty in H.
  - intros [f ->]. apply elem_of_dom, field_name_dom.
Qed.

(** X2. On every page the component can reach, the draft has exactly the
    eight fields of the form: typing, a submit that went through and a
    submit that failed neither add a field nor lose one. *)
Theorem draft_fields (pg : page) (k : string) :
  reachable pg →
  is_Some (form (st (world_of pg)) !! k) ↔ ∃ f, k = field_name f.
Proof.
  intros Hr. destruct (tidy_reachable pg Hr) as ([Hd _] & _).
  rewrite <- initialForm_keys, <- !elem_of_dom. by rewrite Hd.
Qed.

Lemma draft_fields_witness :
  is_Some (form (st (world_of Sample.submitting)) !! "observacoes")
  ↔ ∃ f, "observacoes" = field_name f.
Proof.
  apply (draft_fields Sample.submitting "observacoes").
  unfold Sample.submitting. repeat apply reachable_step. apply reachable_boot.
Defined.

(** ** No crash while inserts return their row *)











(** ** Every row update has its history insert *)

Ltac debt_step :=
  first [ apply debt_Return | apply debt_Throw | apply debt_SetForm
        | apply debt_SetFila | apply debt_SetLoading | apply debt_ConsoleError
        | apply debt_NewDate; intros ?
        | apply debt_update; [reflexivity|intros ?]
        | apply debt_history; [reflexivity|intros ?]
        | apply debt_other; [reflexivity|reflexivity|intros ?] ].

Lemma count_if_snoc (f : query → bool) (qs : list query) (q : query) :
  count_if f (qs ++ [q]) = (count_if f qs + Nat.b2n (f q))%nat.
Proof.
  unfold count_if. rewrite filter_app, length_app. f_equal.
  rewrite filter_cons, filter_nil. by destruct (f q); case_decide.
Qed.

Lemma update_not_history (q : query) :
  is_call_update q = true → is_history_insert q = false.
Proof.
  unfold is_call_update, is_history_insert.
  intros [->%String.eqb_eq _]%andb_true_iff. reflexivity.
Qed.

Lemma history_not_update (q : query) :
  is_history_insert q = true → is_call_update q = false.
Proof.
  unfold is_call_update, is_history_insert.
  intros [->%String.eqb_eq _]%andb_true_iff. reflexivity.
Qed.

Lemma debt_exec now b (p : prog) (w : world) :
  debt b p →
  count_if is_call_update (net w)
  = (count_if is_history_insert (net w) + Nat.b2n b)%nat →
  match exec now p [] w with
  | Done w' | Thrown _ w' =>
      count_if is_call_update (net w') = count_if is_history_insert (net w')
  | Suspended k w' =>
      ∃ b', count_if is_call_update (net w')
            = (count_if is_history_insert (net w') + Nat.b2n b')%nat
            ∧ ∀ r, debt b' (k r)
  end.
Proof.
  intros Hp. revert w.
  induction Hp as [|e|b f k _ IH|b f k _ IH|b c k _ IH|b l a k _ IH|b k _ IH
                   |q k Hq Hk _|q k Hq Hk _|q k Hu Hh Hk _]; intros w Hw;
    cbn [exec].
  - by rewrite Nat.add_0_r in Hw.
  - by rewrite Nat.add_0_r in Hw.
  - exact (IH (with_form f w) Hw).
  - exact (IH (with_fila f w) Hw).
  - exact (IH (with_loading c w) Hw).
  - exact (IH (log l a w) Hw).
  - exact (IH now w Hw).
  - exists true. split; [|exact Hk]. cbn [net send Nat.b2n] in *.
    rewrite !count_if_snoc, Hq, (update_not_history q Hq), Hw. cbn. lia.
  - exists false. split; [|exact Hk]. cbn [net send Nat.b2n] in *.
    rewrite !count_if_snoc, Hq, (history_not_update q Hq), Hw. cbn. lia.
  - exists false. split; [|exact Hk]. cbn [net send Nat.b2n] in *.
    rewrite !count_if_snoc, Hu, Hh, Hw. cbn. lia.
Qed.

Lemma fetchQueue_debt : debt false fetchQueue.
Proof.
  unfold fetchQueue. cbn. repeat debt_step.
  destruct (error r); cbn; repeat debt_step.
Qed.

Lemma handleSubmit_debt (draft : gmap string string) : debt false (handleSubmit draft).
Proof.
  unfold handleSubmit. cbn. repeat debt_step.
  destruct (error r), (data r); cbn; repeat debt_step.
Qed.

Lemma handleCallNext_debt (queue : list val) : debt false (handleCallNext queue).
Proof.
  destruct queue as [|next rest]; [apply debt_Return|].
  unfold handleCallNext, index, member. cbn.
  destruct next; cbn; repeat debt_step;
    destruct (error r), (error r0); cbn; repeat debt_step.
Qed.

Lemma ledger_commit now b (p : prog) (w : world) (alive : bool) :
  debt b p →
  count_if is_call_update (net w)
  = (count_if is_history_insert (net w) + Nat.b2n b)%nat →
  ledger (commit [] alive (exec now p [] w)).
Proof.
  intros Hp Hw. pose proof (debt_exec now b p w Hp Hw) as H.
  by destruct (exec now p [] w).
Qed.

Lemma ledger_step now (e : event) (pg : page) :
  page_ok pg → ledger pg → ledger (step now e pg).
Proof.
  intros Hok Hl. destruct pg as [w waiting alive].
  destruct e as [f value| | |i r]; unfold step, dispatch;
    cbn [world_of pending mounted].
  - destruct alive; [|exact Hl]. exact Hl.
  - destruct (alive && negb (submit_disabled (st w))
              && negb (String.eqb (placa_cavalo_value (st w)) "")) eqn:Hguard;
      [|exact Hl].
    apply andb_true_iff in Hguard as [[_ Hb%negb_true_iff]%andb_true_iff _].
    pose proof (page_ok_idle _ Hok Hb) as Hidle. cbn in Hidle. subst waiting.
    apply (ledger_commit now false); [apply handleSubmit_debt|].
    cbn [Nat.b2n]. rewrite Nat.add_0_r. exact Hl.
  - destruct (alive && negb (callNext_disabled (st w))) eqn:Hguard; [|exact Hl].
    apply andb_true_iff in Hguard as [_ Hd%negb_true_iff].
    apply orb_false_iff in Hd as [Hb _].
    pose proof (page_ok_idle _ Hok Hb) as Hidle. cbn in Hidle. subst waiting.
    apply (ledger_commit now false); [apply handleCallNext_debt|].
    cbn [Nat.b2n]. rewrite Nat.add_0_r. exact Hl.
  - destruct waiting as [|k [|k' ks]].
    + by destruct i.
    + destruct i as [|i]; cbn [lookup list_lookup delete list_delete];
        [|by destruct i].
      destruct Hl as (b & Hb & Hk). by apply (ledger_commit now b).
    + done.
Qed.

Lemma ledger_reachable (pg : page) : reachable pg → ledger pg.
Proof.
  induction 1 as [now|now e pg Hr IH].
  - apply (ledger_commit now false); [apply fetchQueue_debt|reflexivity].
  - apply ledger_step; [by apply page_ok_reachable|exact IH].
Qed.

(** X4. On every page the component can reach, the row updates sent and
    the history inserts sent are equal in number whenever no call is
    pending, and never differ by more than the one update whose history
    insert comes next. *)
Theorem updates_match_history (pg : page) :
  reachable pg →
  (pending pg = [] →
   count_if is_call_update (net (world_of pg))
   = count_if is_history_insert (net (world_of pg)))
  ∧ (count_if is_history_insert (net (world_of pg))
     ≤ count_if is_call_update (net (world_of pg))
     ≤ count_if is_history_insert (net (world_of pg)) + 1)%nat.
Proof.
  intros Hl%ledger_reachable. unfold ledger in Hl.
  destruct (pending pg) as [|k [|k' ks]]; [|destruct Hl as ([|] & Hb & _)|done].
  - split; [done|lia].
  - split; [done|]. cbn [Nat.b2n] in Hb. lia.
  - split; [done|]. cbn [Nat.b2n] in Hb. lia.
Qed.

Lemma updates_match_history_witness :
  (pending Sample.calling = [] →
   count_if is_call_update (net (world_of Sample.calling))
   = count_if is_history_insert (net (world_of Sample.calling)))
  ∧ (count_if is_history_insert (net (world_of Sample.calling))
     ≤ count_if is_call_update (net (world_of Sample.calling))
     ≤ count_if is_history_insert (net (world_of Sample.calling)) + 1)%nat.
Proof.
  apply (updates_match_history Sample.calling).
  unfold Sample.calling, Sample.submitted, Sample.submitting.
  repeat apply reachable_step. apply reachable_boot.
Defined.

(** ** Typing *)

(** A keystroke on a mounted page that renders. *)
Lemma step_Change now (f : field) (value : string) (w : world)
    (waiting : list (response → prog)) :
  renders (st w) = true →
  step now (Change f value) (Page w waiting true)
  = Page (World (State (<[field_name f := value]> (form (st w)))
                       (fila (st w)) (loading (st w)))
                (net w) (console w)) waiting true.
Proof.
  intros Hr. unfold step, dispatch. cbn. unfold renders in *. cbn. by rewrite Hr.
Qed.

Lemma field_name_inj (f g : field) : field_name f = field_name g → f = g.
Proof. by destruct f, g. Qed.

Lemma typed_snoc (keys : list (field * string)) (key : field * string)
    (draft : gmap string string) :
  typed (keys ++ [key]) draft = <[field_name key.1 := key.2]> (typed keys draft).
Proof. unfold typed. by rewrite foldl_app. Qed.

Lemma last_typed_snoc (f : field) (keys : list (field * string)) (key : field * string) :
  last_typed f (keys ++ [key])
  = if decide (key.1 = f) then Some key.2 else last_typed f keys.
Proof.
  induction keys as [|key' keys IH]; cbn.
  - by destruct (decide (key.1 = f)).
  - rewrite IH. destruct (decide (key.1 = f)); [done|].
    by destruct (last_typed f keys).
Qed.

Lemma typed_lookup (keys : list (field * string)) (draft : gmap string string)
    (f : field) :
  typed keys draft !! field_name f
  = match last_typed f keys with
    | Some value => Some value
    | None => draft !! field_name f
    end.
Proof.
  induction keys as [|key keys IH] using rev_ind; [done|].
  rewrite typed_snoc, last_typed_snoc.
  destruct (decide (key.1 = f)) as [<-|Hne].
  - by rewrite lookup_insert_eq.
  - rewrite lookup_insert_ne; [exact IH|].
    intros Heq. by apply Hne, field_name_inj.
Qed.

Lemma type_all_page t (keys : list (field * string)) (w : world)
    (waiting : list (response → prog)) :
  renders (st w) = true →
  type_all t keys (Page w waiting true)
  = Page (World (State (typed keys (form (st w))) (fila (st w)) (loading (st w)))
                (net w) (console w)) waiting true.
Proof.
  intros Hr. induction keys as [|key keys IH] using rev_ind.
  - by destruct w as [[f q l] n c].
  - unfold type_all in *. rewrite foldl_app. cbn [foldl]. rewrite IH.
    rewrite step_Change; [|exact Hr]. cbn. by rewrite typed_snoc.
Qed.

(** X5. Typing on a mounted page only edits the draft, also while a call
    is in flight: after any run of keystrokes each field holds the last
    value typed into it, or what it held before if nothing was typed into
    it, and the queue, the busy flag, the queries sent, the console and
    the pending call are as they were. *)
Theorem typing_last_wins t (keys : list (field * string)) (pg : page) :
  reachable pg → mounted pg = true →
  type_all t keys pg
  = Page (World (State (typed keys (form (st (world_of pg))))
                       (fila (st (world_of pg))) (loading (st (world_of pg))))
                (net (world_of pg)) (console (world_of pg)))
         (pending pg) true
  ∧ ∀ f, typed keys (form (st (world_of pg))) !! field_name f
         = match last_typed f keys with
           | Some value => Some value
           | None => form (st (world_of pg)) !! field_name f
           end.
Proof.
  intros (_ & _ & Hr)%page_ok_reachable Hm. specialize (Hr Hm).
  split; [|intros f; apply typed_lookup].
  destruct pg as [w waiting alive]. cbn in *. subst alive.
  by apply type_all_page.
Qed.

Lemma typing_last_wins_witness :
  type_all "2024-05-01T13:00:02.500Z"
    [(motorista, "Jo"); (placa_cavalo, "X"); (motorista, "Joana")] Sample.submitting
  = Page (World (State (typed [(motorista, "Jo"); (placa_cavalo, "X"); (motorista, "Joana")]
                          (form (st (world_of Sample.submitting))))
                       (fila (st (world_of Sample.submitting)))
                       (loading (st (world_of Sample.submitting))))
                (net (world_of Sample.submitting))
                (console (world_of Sample.submitting)))
         (pending Sample.submitting) true
  ∧ ∀ f, typed [(motorista, "Jo"); (placa_cavalo, "X"); (motorista, "Joana")]
           (form (st (world_of Sample.submitting))) !! field_name f
         = match last_typed f [(motorista, "Jo"); (placa_cavalo, "X"); (motorista, "Joana")] with
           | Some value => Some value
           | None => form (st (world_of Sample.submitting)) !! field_name f
           end.
Proof.
  apply (typing_last_wins "2024-05-01T13:00:02.500Z"
           [(motorista, "Jo"); (placa_cavalo, "X"); (motorista, "Joana")]
           Sample.submitting); [|reflexivity].
  unfold Sample.submitting. repeat apply reachable_step. apply reachable_boot.
Defined.

(** ** Calling the queue in order *)

(** One turn of call next on an idle page that renders a queue headed by
    an entry. *)
Lemma call_turn_page t (ru rh : response) (w : world) (a : gmap string val)
    (rest : list val) :
  loading (st w) = false → fila (st w) = VObj a :: rest → renders (st w) = true →
  call_turn t ru rh (Page w [] true)
  = Page (World (State (form (st w)) rest false)
                (net w ++ [update_of t (default VUndefined (a !! "id"));
                           history_of t a])
                (console w
                 ++ logged "Erro ao chamar veículo:" (error ru)
                 ++ logged "Erro ao registrar histórico:" (error rh)))
         [] true.
Proof.
  destruct w as [[f q l] n c]. cbn. intros -> -> Hr.
  unfold renders in Hr. cbn [fila forallb] in Hr.
  apply andb_true_iff in Hr as [Ha Hrest].
  unfold call_turn, step, dispatch, callNext_disabled, renders.
  cbn -[item_renders].
  destruct ru as [du [eu|]], rh as [dh [eh|]]; cbn -[item_renders];
    rewrite ?Ha, ?Hrest; cbn -[item_renders];
    unfold send, log, with_fila, with_loading; cbn -[item_renders];
    rewrite ?drop_0, ?Hrest, <- ?(assoc_L (++)); cbn -[item_renders];
    rewrite ?app_nil_r; reflexivity.
Qed.

(** Turns of call next, one per entry of [rows], on an idle mounted page
    whose queue starts with [rows]. *)
Lemma call_all_page (turns : list (string * response * response))
    (rows : list (gmap string val)) (rest : list val) (pg : page) :
  reachable pg → mounted pg = true → loading (st (world_of pg)) = false →
  fila (st (world_of pg)) = (VObj <$> rows) ++ rest →
  length turns = length rows →
  call_all turns pg
  = Page (World (State (form (st (world_of pg))) rest false)
                (net (world_of pg) ++ calls_of rows turns)
                (console (world_of pg) ++ lines_of turns))
         [] true.
Proof.
  intros Hreach Hm Hl Hq Hlen.
  revert turns pg Hreach Hm Hl Hq Hlen.
  induction rows as [|a rows IH]; intros [|[[t ru] rh] turns] pg Hreach Hm Hl Hq Hlen;
    try done.
  - pose proof (page_ok_idle pg (page_ok_reachable pg Hreach) Hl) as Hidle.
    destruct pg as [[[f q l] n c] waiting alive]. cbn in *. subst.
    by rewrite !app_nil_r.
  - pose proof (page_ok_reachable pg Hreach) as Hok.
    pose proof (page_ok_idle pg Hok Hl) as Hidle.
    destruct Hok as (_ & _ & Hr). specialize (Hr Hm).
    assert (reachable (call_turn t ru rh pg)) as Hreach'
      by (unfold call_turn; by repeat apply reachable_step).
    cbn [call_all calls_of lines_of].
    destruct pg as [w waiting alive]. cbn in Hm, Hl, Hq, Hidle, Hr. subst waiting alive.
    cbn [world_of] in *.
    rewrite (call_turn_page t ru rh w a ((VObj <$> rows) ++ rest) Hl Hq Hr) in Hreach' |- *.
    rewrite (IH turns _ Hreach'); cbn; try done; [|by injection Hlen].
    by rewrite <- !(assoc_L (++)).
Qed.

(** X6. Entries are called in the order of the local queue. On an idle
    mounted page whose queue starts with the entries [rows], as many
    turns of call next as there are [rows] send, entry by entry from the
    head, the update of that entry followed by its history insert, and
    leave the rest of the queue; nothing else changes but the console. *)
Theorem calls_in_queue_order (turns : list (string * response * response))
    (rows : list (gmap string val)) (rest : list val) (pg : page) :
  reachable pg → mounted pg = true → loading (st (world_of pg)) = false →
  fila (st (world_of pg)) = (VObj <$> rows) ++ rest →
  length turns = length rows →
  call_all turns pg
  = Page (World (State (form (st (world_of pg))) rest false)
                (net (world_of pg) ++ calls_of rows turns)
                (console (world_of pg) ++ lines_of turns))
         [] true.
Proof. apply call_all_page. Qed.

Lemma calls_in_queue_order_witness :
  call_all [("2024-05-01T13:01:00.000Z", Sample.failed "timeout", Sample.ok);
            ("2024-05-01T13:02:00.000Z", Sample.ok, Sample.ok)] Sample.submitted
  = Page (World (State (form (st (world_of Sample.submitted))) [VObj Sample.D] false)
                (net (world_of Sample.submitted)
                 ++ calls_of [Sample.A; Sample.B]
                      [("2024-05-01T13:01:00.000Z", Sample.failed "timeout", Sample.ok);
                       ("2024-05-01T13:02:00.000Z", Sample.ok, Sample.ok)])
                (console (world_of Sample.submitted)
                 ++ lines_of
                      [("2024-05-01T13:01:00.000Z", Sample.failed "timeout", Sample.ok);
                       ("2024-05-01T13:02:00.000Z", Sample.ok, Sample.ok)]))
         [] true.
Proof.
  apply (calls_in_queue_order
           [("2024-05-01T13:01:00.000Z", Sample.failed "timeout", Sample.ok);
            ("2024-05-01T13:02:00.000Z", Sample.ok, Sample.ok)]
           [Sample.A; Sample.B] [VObj Sample.D] Sample.submitted);
    [|reflexivity..].
  unfold Sample.submitted, Sample.submitting.
  repeat apply reachable_step. apply reachable_boot.
Defined.

(** ** Submit, with typing while the insert is in flight *)

(** A submit on an idle page that renders, keystrokes while the insert is
    in flight, then the insert settling with [r]. *)
Lemma submit_turn_page t1 t2 t3 (keys : list (field * string)) (r : response)
    (w : world) :
  loading (st w) = false → placa_cavalo_value (st w) ≠ "" → renders (st w) = true →
  step t3 (Settle 0 r) (type_all t2 keys (step t1 Submit (Page w [] true)))
  = commit [] true
      (Done {| st := match error r, data r with
                     | None, Some d =>
                         State initialForm (fila (st w) ++ [first_row d]) false
                     | _, _ => State (typed keys (form (st w))) (fila (st w)) false
                     end;
               net := net w ++ [insert_of (form (st w))];
               console := console w ++
                          match error r, data r with
                          | None, Some _ => []
                          | _, _ => [("Erro ao inserir veículo:",
                                      optional_message (error r))]
                          end |}).
Proof.
  destruct w as [[f q l] n c]. intros Hl Hplate Hr. cbn in Hl. subst l.
  apply String.eqb_neq in Hplate. cbn [st] in Hplate, Hr.
  unfold step at 2. unfold submit_disabled, dispatch.
  cbn -[type_all step placa_cavalo_value renders]. rewrite Hplate.
  cbn -[type_all step renders].
  change (renders {| form := f; fila := q; loading := true |})
    with (renders {| form := f; fila := q; loading := false |}).
  rewrite Hr, type_all_page; [|exact Hr].
  unfold step. cbn -[renders].
  destruct r as [[d|] [e|]]; cbn -[renders]; rewrite ?app_nil_r; reflexivity.
Qed.

(** X7. What is typed while a submit is in flight is never sent and does
    not survive a submit that goes through: the insert carries the draft
    as it was when the form was submitted; when a row comes back it is
    appended and the draft is reset, keystrokes included; when the insert
    fails the queue is unchanged and the draft is the one typed so far. *)
Theorem edits_during_submit t1 t2 t3 (keys : list (field * string)) (r : response)
    (pg : page) :
  reachable pg → mounted pg = true → loading (st (world_of pg)) = false →
  placa_cavalo_value (st (world_of pg)) ≠ "" →
  let pg' := step t3 (Settle 0 r) (type_all t2 keys (step t1 Submit pg)) in
  net (world_of pg') = net (world_of pg) ++ [insert_of (form (st (world_of pg)))]
  ∧ pending pg' = []
  ∧ loading (st (world_of pg')) = false
  ∧ (∀ row more, error r = None → data r = Some (row :: more) →
       form (st (world_of pg')) = initialForm
       ∧ fila (st (world_of pg')) = fila (st (world_of pg)) ++ [VObj row])
  ∧ (∀ e, error r = Some e →
       form (st (world_of pg')) = typed keys (form (st (world_of pg)))
       ∧ fila (st (world_of pg')) = fila (st (world_of pg))).
Proof.
  intros Hreach Hm Hl Hplate pg'.
  pose proof (page_ok_reachable pg Hreach) as Hok.
  pose proof (page_ok_idle pg Hok Hl) as Hidle.
  destruct Hok as (_ & _ & Hr). specialize (Hr Hm).
  destruct pg as [w waiting alive]. cbn in Hm, Hl, Hplate, Hidle, Hr.
  subst waiting alive pg'. rewrite submit_turn_page; [|done..]. cbn.
  split; [reflexivity|]. split; [reflexivity|].
  split; [by destruct (error r), (data r)|]. split.
  - by intros row more -> ->.
  - intros e ->. by destruct (data r).
Qed.

Lemma edits_during_submit_witness :
  (net (world_of (step "2024-05-01T13:00:03.000Z" (Settle 0 (Response (Some [Sample.D]) None))
                    (type_all "2024-05-01T13:00:02.500Z" [(motorista, "Joana")]
                       (step "2024-05-01T13:00:02.000Z" Submit Sample.ready))))
   = net (world_of Sample.ready) ++ [insert_of Sample.draft])
  ∧ (form (st (world_of (step "2024-05-01T13:00:03.000Z"
                           (Settle 0 (Response (Some [Sample.D]) None))
                           (type_all "2024-05-01T13:00:02.500Z" [(motorista, "Joana")]
                              (step "2024-05-01T13:00:02.000Z" Submit Sample.ready)))))
     = initialForm)
  ∧ (form (st (world_of (step "2024-05-01T13:00:03.000Z"
                           (Settle 0 (Sample.failed "permission denied"))
                           (type_all "2024-05-01T13:00:02.500Z" [(motorista, "Joana")]
                              (step "2024-05-01T13:00:02.000Z" Submit Sample.ready)))))
     = typed [(motorista, "Joana")] Sample.draft).
Proof.
  assert (reachable Sample.ready) as Hreach
    by (unfold Sample.ready; repeat apply reachable_step; apply reachable_boot).
  assert (placa_cavalo_value (st (world_of Sample.ready)) ≠ "") as Hplate
    by (intros H; discriminate H).
  split; [|split].
  - exact (proj1 (edits_during_submit _ _ _ [(motorista, "Joana")]
                    (Response (Some [Sample.D]) None) Sample.ready
                    Hreach eq_refl eq_refl Hplate)).
  - destruct (edits_during_submit "2024-05-01T13:00:02.000Z" "2024-05-01T13:00:02.500Z"
                "2024-05-01T13:00:03.000Z" [(motorista, "Joana")]
                (Response (Some [Sample.D]) None) Sample.ready
                Hreach eq_refl eq_refl Hplate) as (_ & _ & _ & Hok & _).
    exact (proj1 (Hok Sample.D [] eq_refl eq_refl)).
  - destruct (edits_during_submit "2024-05-01T13:00:02.000Z" "2024-05-01T13:00:02.500Z"
                "2024-05-01T13:00:03.000Z" [(motorista, "Joana")]
                (Sample.failed "permission denied") Sample.ready
                Hreach eq_refl eq_refl Hplate) as (_ & _ & _ & _ & Hko).
    exact (proj1 (Hko _ eq_refl)).
Defined.



(** X9. An insert that settles without error but with an empty array
    takes the page down: [undefined] is appended to the queue, the render
    throws on it, the page is unmounted, and from then on typing, submit
    and call next do nothing. *)
Theorem empty_insert_unmounts t1 t2 (pg : page) :
  reachable pg → mounted pg = true → loading (st (world_of pg)) = false →
  placa_cavalo_value (st (world_of pg)) ≠ "" →
  let pg' := step t2 (Settle 0 (Response (Some []) None)) (step t1 Submit pg) in
  fila (st (world_of pg')) = fila (st (world_of pg)) ++ [VUndefined]
  ∧ mounted pg' = false
  ∧ ∀ now e, (∀ i r, e ≠ Settle i r) → step now e pg' = pg'.
Proof.
  intros Hreach Hm Hl Hplate pg'.
  pose proof (page_ok_reachable pg Hreach) as Hok.
  pose proof (page_ok_idle pg Hok Hl) as Hidle.
  destruct Hok as (_ & _ & Hr). specialize (Hr Hm).
  destruct pg as [w waiting alive]. cbn in Hm, Hl, Hplate, Hidle, Hr.
  subst waiting alive.
  pose proof (submit_turn_page t1 t1 t2 [] (Response (Some []) None) w
                Hl Hplate Hr) as Hturn.
  change (type_all t1 [] ?x) with x in Hturn.
  assert (mounted pg' = false) as Hdead.
  { subst pg'. rewrite Hturn. cbn. unfold renders. cbn.
    rewrite forallb_app. cbn. by rewrite andb_false_r. }
  split; [subst pg'; by rewrite Hturn|]. split; [exact Hdead|].
  intros now e He. destruct e as [f value| | |i r]; unfold step;
    rewrite ?Hdead; cbn [andb]; try reflexivity.
  by destruct (He i r).
Qed.

Lemma empty_insert_unmounts_witness :
  fila (st (world_of (step "2024-05-01T13:00:03.000Z" (Settle 0 (Response (Some []) None))
                        (step "2024-05-01T13:00:02.000Z" Submit Sample.ready))))
  = [VObj Sample.A; VObj Sample.B; VUndefined]
  ∧ mounted (step "2024-05-01T13:00:03.000Z" (Settle 0 (Response (Some []) None))
               (step "2024-05-01T13:00:02.000Z" Submit Sample.ready)) = false.
Proof.
  assert (reachable Sample.ready) as Hreach
    by (unfold Sample.ready; repeat apply reachable_step; apply reachable_boot).
  assert (placa_cavalo_value (st (world_of Sample.ready)) ≠ "") as Hplate
    by (intros H; discriminate H).
  destruct (empty_insert_unmounts "2024-05-01T13:00:02.000Z" "2024-05-01T13:00:03.000Z"
              Sample.ready Hreach eq_refl eq_refl Hplate) as (Hq & Hdead & _).
  split; [exact Hq|exact Hdead].
Defined.

(** ** What is displayed *)

(** X10. On every page the component can reach, the submit button reads
    "Salvando..." and is disabled, and the line "Carregando..." shows,
    exactly while a call is pending, the load at mount included; and the
    call-next button is enabled only when it reads "Chamar próximo". *)
Theorem display_follows_busy (pg : page) :
  reachable pg →
  (submit_label (st (world_of pg)) = "Salvando..." ↔ pending pg ≠ [])
  ∧ (loading_line (st (world_of pg)) = Some "Carregando..." ↔ pending pg ≠ [])
  ∧ (submit_disabled (st (world_of pg)) = true ↔ pending pg ≠ [])
  ∧ (callNext_disabled (st (world_of pg)) = false →
     callNext_label (st (world_of pg)) = "Chamar próximo").
Proof.
  intros (Hp & _)%page_ok_reachable.
  assert (loading (st (world_of pg)) = true ↔ pending pg ≠ []) as Hbusy.
  { destruct (pending pg) as [|k [|k' ks]]; [|by destruct Hp|done].
    rewrite Hp. split; done. }
  unfold submit_label, loading_line, submit_disabled, callNext_disabled, callNext_label.
  rewrite <- Hbusy.
  repeat split; try (by destruct (loading (st (world_of pg)))).
  intros [_ Hlen]%orb_false_iff. by rewrite Hlen.
Qed.

Lemma display_follows_busy_witness :
  (submit_label (st (world_of Sample.calling)) = "Salvando..."
   ↔ pending Sample.calling ≠ [])
  ∧ (loading_line (st (world_of Sample.calling)) = Some "Carregando..."
     ↔ pending Sample.calling ≠ [])
  ∧ (submit_disabled (st (world_of Sample.calling)) = true
     ↔ pending Sample.calling ≠ [])
  ∧ (callNext_disabled (st (world_of Sample.calling)) = false →
     callNext_label (st (world_of Sample.calling)) = "Chamar próximo").
Proof.
  apply (display_follows_busy Sample.calling).
  unfold Sample.calling, Sample.submitted, Sample.submitting.
  repeat apply reachable_step. apply reachable_boot.
Defined.

(** ** Nothing is logged while the calls go through *)

Lemma quiet_change_safe (f : field) (value : string) :
  safe (λ _, True) (λ _, True) goes_through (λ _ _, False)
       (handleChange (field_name f) value).
Proof. by repeat safe_step. Qed.

Lemma quiet_fetch_safe (r : response) :
  error r = None →
  safe (λ _, True) (λ _, True) goes_through (λ _ _, False)
       ((match error r with
         | None => setFila (λ _, rows_or_empty (data r))
         | Some e => console_error "Erro ao buscar fila:" (VStr (message e))
         end ;; setLoading false)%prog).
Proof. intros ->. cbn. by repeat safe_step. Qed.

Lemma quiet_submit_safe (draft : gmap string string) :
  safe (λ _, True) (λ _, True) goes_through (λ _ _, False) (handleSubmit draft).
Proof.
  unfold handleSubmit. cbn. safe_step; [done|]. safe_step; [done|].
  destruct H as [He Hd]. rewrite He.
  destruct (data r) as [d|] eqn:Hdata; cbn; [by repeat safe_step|].
  exfalso. apply Hd; [by eexists|done..].
Qed.

Lemma quiet_callNext_safe (queue : list val) :
  safe (λ _, True) (λ _, True) goes_through (λ _ _, False) (handleCallNext queue).
Proof.
  destruct queue as [|next rest]; [apply safe_Return|].
  unfold handleCallNext, index, member. cbn.
  destruct next; cbn; repeat safe_step; try done;
    destruct H as [-> _], H0 as [-> _]; cbn; by repeat safe_step.
Qed.

Lemma quiet_boot now :
  page_inv (λ _, True) (λ _, True) goes_through (λ _ _, False) (boot now).
Proof.
  repeat split; cbn; [by exists []|by constructor|].
  eexists. split; [reflexivity|]. intros r [He _]. by apply quiet_fetch_safe.
Qed.

(** X11. The component logs failures only: as long as every call it has
    made went through (no error, and the insert of a submit got its rows
    back), the console is empty. *)
Theorem quiet_console (pg : page) :
  reachable_under goes_through pg → console (world_of pg) = [].
Proof.
  intros Hr.
  destruct (page_inv_reachable (λ _, True) (λ _, True) goes_through (λ _ _, False)
              quiet_boot quiet_change_safe (λ s _, quiet_submit_safe (form s))
              (λ s _, quiet_callNext_safe (fila s)) pg Hr) as (_ & _ & HL & _).
  destruct (console (world_of pg)) as [|line lines]; [done|].
  by apply Forall_cons in HL as [? _].
Qed.

Lemma quiet_console_witness : console (world_of Sample.submitted) = [].
Proof.
  apply (quiet_console Sample.submitted).
  unfold Sample.submitted, Sample.submitting.
  repeat (apply under_step; [|try exact Logic.I]); [apply under_boot|..].
  - intros q [= <-]. split; [reflexivity|]. intros [rows Hm] _. discriminate Hm.
  - intros q [= <-]. split; [reflexivity|]. intros _ _. discriminate.
Defined.
